(** * The R-Auth token codec of [getRAuthToken.ts]

    A shallow embedding of [getRAuthToken]
    (src/services/api/auth/utils/getRAuthToken.ts) and the properties of
    its three stages: seed derivation, payload assembly, and the XOR
    stream cipher followed by base64.

    Conventions.
    - A JavaScript string is the list of its UTF-16 code units ([jsstring]).
    - A JavaScript Number is [NaN], an infinity, or an integer [Int z],
      which stands for the double of value [z]; every integer of
      magnitude up to 2^53 ([safe_integer]) is such a double, and
      [round_double] gives the double nearest to any other integer.
      Negative zero behaves as [Int 0] under every operation used here
      (ToInt32, ToString).  Every Number that [getRAuthToken] manipulates
      is [NaN], an infinity or integer valued.
    - A [Uint8Array] is a [list Z] of values in [0, 256); every store
      goes through [ToUint8], as the typed array does.
    - [getClientDataFromCookies] (./helpers), [process.env.NODE_ENV] and
      [Date.now()] are read from an explicit environment record; the
      record holds what the awaited helper resolved to.
    - Exceptions of the built-ins are outcomes ([result]): [RangeError]
      of [Uint8Array.prototype.set], [InvalidCharacterError] of [btoa].
      Limits of an engine on the number of arguments of a spread call
      are outside the model. *)

From Stdlib Require Import ZArith Lia String Ascii DecimalString.
From Stdlib Require Import DecimalPos DecimalZ.
From stdpp Require Import base list gmap.

Local Open Scope Z_scope.

(** ** JavaScript numbers and the 32-bit operators *)

Module JS.

Inductive Number : Type :=
| NaN
| Int (z : Z)
| Infinity
| NegInfinity.

(** Two's-complement reduction of an integer to the signed 32-bit range. *)
Definition wrap32 (z : Z) : Z := (z + 2 ^ 31) mod 2 ^ 32 - 2 ^ 31.

(** ECMA-262 ToInt32: NaN and the infinities go to 0, an integer is
    reduced modulo 2^32. *)
Definition ToInt32 (n : Number) : Z :=
  match n with
  | Int z => wrap32 z
  | _ => 0
  end.

(** ToUint8, the conversion of a [Uint8Array] store. *)
Definition ToUint8 (n : Number) : Z :=
  match n with
  | Int z => z mod 256
  | _ => 0
  end.

(** [a << k]: the shift count is taken modulo 32, the result is an int32. *)
Definition shl (a : Number) (k : Z) : Number :=
  Int (wrap32 (Z.shiftl (ToInt32 a) (k mod 32))).

(** [a >> k]: sign-propagating shift of the int32 value. *)
Definition sar (a : Number) (k : Z) : Number :=
  Int (Z.shiftr (ToInt32 a) (k mod 32)).

(** [a ^ b] and [a & b] on the int32 values of the operands. *)
Definition bit_xor (a b : Number) : Number :=
  Int (Z.lxor (ToInt32 a) (ToInt32 b)).

Definition bit_and (a b : Number) : Number :=
  Int (Z.land (ToInt32 a) (ToInt32 b)).

(** The double nearest to an integer, ties to the even significand
    (53 bits); from 2^1024 - 2^970 on the result is an infinity. *)
Definition round_double (z : Z) : Number :=
  let a := Z.abs z in
  if a <? 2 ^ 53 then Int z
  else
    let e := Z.log2 a - 52 in
    let q := Z.shiftr a e in
    let r := a - Z.shiftl q e in
    let half := Z.shiftl 1 (e - 1) in
    let m :=
      if r <? half then q
      else if half <? r then q + 1
      else if Z.even q then q else q + 1 in
    let v := Z.shiftl m e in
    if 2 ^ 1024 <=? v then (if z <? 0 then NegInfinity else Infinity)
    else Int (Z.sgn z * v).

(** [a * b] and [a + b] are double operations: the exact result, rounded
    once. *)
Definition mul (a b : Number) : Number :=
  match a, b with
  | NaN, _ | _, NaN => NaN
  | Int x, Int y => round_double (x * y)
  | Int x, Infinity | Infinity, Int x =>
      if x =? 0 then NaN else if x <? 0 then NegInfinity else Infinity
  | Int x, NegInfinity | NegInfinity, Int x =>
      if x =? 0 then NaN else if x <? 0 then Infinity else NegInfinity
  | Infinity, Infinity | NegInfinity, NegInfinity => Infinity
  | Infinity, NegInfinity | NegInfinity, Infinity => NegInfinity
  end.

Definition add (a b : Number) : Number :=
  match a, b with
  | NaN, _ | _, NaN => NaN
  | Int x, Int y => round_double (x + y)
  | Infinity, NegInfinity | NegInfinity, Infinity => NaN
  | Infinity, _ | _, Infinity => Infinity
  | NegInfinity, _ | _, NegInfinity => NegInfinity
  end.

Definition safe_integer (z : Z) : Prop := - 2 ^ 53 <= z <= 2 ^ 53.

Definition exact (n : Number) : Prop :=
  match n with
  | Int z => safe_integer z
  | _ => True
  end.

End JS.

Import JS.

(** ** Seed derivation (lines 73-95) *)

(** Line 75: [random = (random << 21) ^ (random << 19) ^ random]. *)
Definition mix (random : Number) : Number :=
  bit_xor (bit_xor (shl random 21) (shl random 19)) random.

(** Line 76: [random = random * 251 + 19]. *)
Definition scale (random : Number) : Number :=
  add (mul random (Int 251)) (Int 19).

(** Lines 80-83: the four bytes of [random], most significant first. *)
Definition extract (random : Number) : Number * Number * Number * Number :=
  (bit_and (sar random 24) (Int 255),
   bit_and (sar random 16) (Int 255),
   bit_and (sar random 8) (Int 255),
   bit_and random (Int 255)).

(** Lines 86-91: the chained XOR, [tmp] holding the original [b0]. *)
Definition chain (b : Number * Number * Number * Number)
  : Number * Number * Number * Number :=
  let '(b0, b1, b2, b3) := b in
  let tmp := b0 in
  let b0 := bit_xor b0 b1 in
  let b1 := bit_xor b1 b2 in
  let b2 := bit_xor b2 b3 in
  let b3 := bit_xor b3 tmp in
  (b0, b1, b2, b3).

(** [random] after lines 73-76. *)
Definition random_of (finalTimestamp : Number) : Number :=
  scale (mix finalTimestamp).

(** Line 95: [new Uint8Array([b0, b1, b2, b3])]. *)
Definition initialBytes (finalTimestamp : Number) : list Z :=
  let '(b0, b1, b2, b3) := chain (extract (random_of finalTimestamp)) in
  [ToUint8 b0; ToUint8 b1; ToUint8 b2; ToUint8 b3].

(** The seed derivation as the specification words it: every step is a
    signed 32-bit operation with wrap-around, the multiply-add included. *)
Module Wrapped32.

Definition step2 (r : Z) : Z :=
  wrap32 (Z.lxor (Z.lxor (wrap32 (Z.shiftl r 21)) (wrap32 (Z.shiftl r 19))) r).

Definition step3 (r : Z) : Z := wrap32 (r * 251 + 19).

Definition bytes_of (r : Z) : Z * Z * Z * Z :=
  (Z.land (Z.shiftr r 24) 255,
   Z.land (Z.shiftr r 16) 255,
   Z.land (Z.shiftr r 8) 255,
   Z.land r 255).

Definition extracted (t : Z) : Z * Z * Z * Z :=
  bytes_of (step3 (step2 (wrap32 t))).

(** The same expression evaluated on unbounded integers and reduced to
    32 bits once, at the end. *)
Definition word (t : Z) : Z :=
  wrap32 (Z.lxor (Z.lxor (Z.shiftl t 21) (Z.shiftl t 19)) t * 251 + 19).

End Wrapped32.

(** ** Strings *)

(** A JavaScript string: its UTF-16 code units. *)
Definition jsstring : Type := list Z.

(** The code units of an ASCII literal of the source. *)
Definition lit (s : string) : jsstring :=
  map (fun a => Z.of_N (N_of_ascii a)) (list_ascii_of_string s).

(** Truthiness of an optional string parameter: [undefined] and the empty
    string are falsy, every other string is truthy. *)
Definition truthy (o : option jsstring) : bool :=
  match o with
  | Some (_ :: _) => true
  | _ => false
  end.

(** [a || b] where [b] may itself be [undefined]. *)
Definition or_opt (a b : option jsstring) : option jsstring :=
  if truthy a then a else b.

(** [a || 'literal']. *)
Definition or_lit (a : option jsstring) (l : jsstring) : jsstring :=
  match a with
  | Some (c :: r) => c :: r
  | _ => l
  end.

(** StrWhiteSpaceChar of ECMA-262 (WhiteSpace and LineTerminator). *)
Definition is_white_space (c : Z) : bool :=
  (c =? 9) || (c =? 10) || (c =? 11) || (c =? 12) || (c =? 13) || (c =? 32)
  || (c =? 160) || (c =? 5760) || ((8192 <=? c) && (c <=? 8202))
  || (c =? 8232) || (c =? 8233) || (c =? 8239) || (c =? 8287)
  || (c =? 12288) || (c =? 65279).

Fixpoint trim_start (s : jsstring) : jsstring :=
  match s with
  | c :: r => if is_white_space c then trim_start r else s
  | [] => []
  end.

Definition digit_value (c : Z) : option Z :=
  if (48 <=? c) && (c <=? 57) then Some (c - 48) else None.

(** The longest prefix of decimal digits, as digit values. *)
Fixpoint digits_prefix (s : jsstring) : list Z :=
  match s with
  | c :: r =>
      match digit_value c with
      | Some d => d :: digits_prefix r
      | None => []
      end
  | [] => []
  end.

Definition mathInt (ds : list Z) : Z :=
  fold_left (fun acc d => acc * 10 + d) ds 0.

(** [parseInt(s, 10)]: leading white space is skipped, one sign is
    accepted, the longest run of digits is read and what follows it is
    ignored; without a digit the result is NaN.  Radix 10 strips no
    [0x] prefix.  The value is the double nearest to the integer that the
    digits denote (ECMA-262 lets an engine drop digits after the
    twentieth before it rounds; the common engines round the exact
    value). *)
Definition parseInt10 (s : jsstring) : Number :=
  let trimmed := trim_start s in
  let '(sign, rest) :=
    match trimmed with
    | c :: r =>
        if c =? 45 then (-1, r) else if c =? 43 then (1, r) else (1, trimmed)
    | [] => (1, trimmed)
    end in
  match digits_prefix rest with
  | [] => NaN
  | ds => round_double (sign * mathInt ds)
  end.

(** The decimal text of an integer. *)
Definition decimal (z : Z) : jsstring :=
  lit (NilZero.string_of_int (Z.to_int z)).

Definition Number_eqb (a b : Number) : bool :=
  match a, b with
  | NaN, NaN => true
  | Int x, Int y => x =? y
  | Infinity, Infinity => true
  | NegInfinity, NegInfinity => true
  | _, _ => false
  end.

(** Number::toString of ECMA-262 looks for integers [n], [k], [s] with
    [10^(k-1) <= s < 10^k] such that [s * 10^(n-k)] is read back as the
    number, [k] as small as possible.  The pairs [(s, n)] with [k]
    digits: [n] is the number of digits of the integer or one next to
    it. *)
Definition digit_candidates (x k : Z) : list (Z * Z) :=
  let len := Z.of_nat (length (decimal x)) in
  flat_map
    (fun n =>
       if n <? k then []
       else
         let base := 10 ^ (n - k) in
         let s0 := x / base in
         List.filter
           (fun c =>
              (10 ^ (k - 1) <=? fst c) && (fst c <? 10 ^ k)
              && Number_eqb (round_double (fst c * base)) (Int x))
           [(s0, n); (s0 + 1, n)])
    [len - 1; len; len + 1].

Definition distance (x k : Z) (c : Z * Z) : Z :=
  Z.abs (fst c * 10 ^ (snd c - k) - x).

(** Of two candidates the one nearer to the number, the even one when
    they are as near. *)
Definition closer (x k : Z) (c1 c2 : Z * Z) : Z * Z :=
  if distance x k c1 <? distance x k c2 then c1
  else if distance x k c2 <? distance x k c1 then c2
  else if Z.even (fst c1) then c1 else c2.

Fixpoint shortest_from (fuel : nat) (x k : Z) : Z * Z :=
  match fuel with
  | O => (x, Z.of_nat (length (decimal x)))
  | S fuel' =>
      match digit_candidates x k with
      | c :: cs => fold_left (closer x k) cs c
      | [] => shortest_from fuel' x (k + 1)
      end
  end.

(** Seventeen digits identify every double. *)
Definition shortest (x : Z) : Z * Z := shortest_from 17 x 1.

(** The text of a non-negative integer double: up to 2^53 its own
    decimal numeral; above, the shortest digits followed by zeros while
    the numeral has at most 21 digits, and the exponent form after
    that. *)
Definition positive_toString (x : Z) : jsstring :=
  if x <=? 2 ^ 53 then decimal x
  else
    let '(s, n) := shortest x in
    let digits := decimal s in
    let k := Z.of_nat (length digits) in
    if n <=? 21 then digits ++ replicate (Z.to_nat (n - k)) 48
    else
      match digits with
      | [] => []
      | [d] => d :: lit "e+" ++ decimal (n - 1)
      | d :: more => d :: lit "." ++ more ++ lit "e+" ++ decimal (n - 1)
      end.

(** ToString of a Number inside a template literal. *)
Definition Number_toString (n : Number) : jsstring :=
  match n with
  | NaN => lit "NaN"
  | Infinity => lit "Infinity"
  | NegInfinity => lit "-Infinity"
  | Int z =>
      if z <? 0 then lit "-" ++ positive_toString (- z)
      else positive_toString z
  end.

(** ** TextEncoder: UTF-8 *)

Definition is_lead (c : Z) : bool := (55296 <=? c) && (c <=? 56319).
Definition is_trail (c : Z) : bool := (56320 <=? c) && (c <=? 57343).

Definition utf8_of_code_point (cp : Z) : list Z :=
  if cp <? 128 then
    [Z.land cp 127]
  else if cp <? 2048 then
    [Z.lor 192 (Z.land (Z.shiftr cp 6) 31);
     Z.lor 128 (Z.land cp 63)]
  else if cp <? 65536 then
    [Z.lor 224 (Z.land (Z.shiftr cp 12) 15);
     Z.lor 128 (Z.land (Z.shiftr cp 6) 63);
     Z.lor 128 (Z.land cp 63)]
  else
    [Z.lor 240 (Z.land (Z.shiftr cp 18) 7);
     Z.lor 128 (Z.land (Z.shiftr cp 12) 63);
     Z.lor 128 (Z.land (Z.shiftr cp 6) 63);
     Z.lor 128 (Z.land cp 63)].

Definition replacement : Z := 65533.

(** [new TextEncoder().encode(s)]: surrogate pairs are combined, a lone
    surrogate is encoded as U+FFFD. *)
Fixpoint TextEncoder_encode (s : jsstring) : list Z :=
  match s with
  | [] => []
  | c :: rest =>
      if is_lead c then
        match rest with
        | d :: rest' =>
            if is_trail d then
              utf8_of_code_point (65536 + (c - 55296) * 1024 + (d - 56320))
                ++ TextEncoder_encode rest'
            else utf8_of_code_point replacement ++ TextEncoder_encode rest
        | [] => utf8_of_code_point replacement
        end
      else if is_trail c then
        utf8_of_code_point replacement ++ TextEncoder_encode rest
      else utf8_of_code_point c ++ TextEncoder_encode rest
  end.

(** ** Outcomes *)

Inductive exn : Type :=
| RangeError
| InvalidCharacterError.

Inductive result (A : Type) : Type :=
| Return (a : A)
| Throw (e : exn).

Arguments Return {A} a.
Arguments Throw {A} e.

#[global] Instance result_ret : MRet result := fun A a => Return a.

#[global] Instance result_bind : MBind result := fun A B k m =>
  match m with
  | Return a => k a
  | Throw e => Throw e
  end.

(** ** Typed arrays *)

(** [new Uint8Array(n)]: [n] zero bytes. *)
Definition Uint8Array_new (n : nat) : list Z := replicate n 0.

(** [target.set(source, offset)] for a [Uint8Array] source: the bytes are
    copied in place; a source that does not fit raises RangeError. *)
Definition Uint8Array_set (target source : list Z) (offset : nat)
  : result (list Z) :=
  if (offset + length source <=? length target)%nat then
    Return (take offset target ++ source
              ++ drop (offset + length source) target)
  else Throw RangeError.

(** [a[i]] as an operand: an index past the end reads [undefined], which
    is NaN as a number. *)
Definition read (a : list Z) (i : nat) : Number :=
  match a !! i with
  | Some b => Int b
  | None => NaN
  end.

(** ** The cipher stage (lines 109-126) *)

(** Lines 109-114: the fixed 64-byte key. *)
Definition key : list Z :=
  [0x09; 0x9d; 0xc8; 0x96; 0x3f; 0x9b; 0x5e; 0x0c; 0xce; 0xc8; 0xa5; 0xef;
   0xa4; 0x21; 0xbe; 0x7c; 0xb0; 0xc2; 0xb0; 0xc9; 0xd5; 0x5c; 0xcc; 0x33;
   0x79; 0x52; 0xe7; 0x83; 0x3c; 0xd2; 0x79; 0xd3; 0x49; 0xc0; 0xf9; 0x70;
   0xe9; 0xa6; 0x34; 0x42; 0x2b; 0x13; 0xfb; 0xd0; 0x26; 0x34; 0xf2; 0xd8;
   0x86; 0xb5; 0x72; 0xd5; 0x13; 0x74; 0x5d; 0xc5; 0xb2; 0xaa; 0x4d; 0x68;
   0x3f; 0x1a; 0xaa; 0x6e].

Definition keylen : nat := length key.

(** Line 125:
    [combinedData[i] = combinedData[i] ^ key[i % keylen] ^ combinedData[i % 4]]. *)
Definition loop_body (combinedData : list Z) (i : nat) : list Z :=
  <[i := ToUint8 (bit_xor (bit_xor (read combinedData i) (read key (i mod keylen)))
                      (read combinedData (i mod 4)))]> combinedData.

(** [n] iterations of the loop body from index [i] upwards. *)
Fixpoint iterate (n : nat) (i : nat) (combinedData : list Z) : list Z :=
  match n with
  | O => combinedData
  | S n' => iterate n' (S i) (loop_body combinedData i)
  end.

(** Lines 117-126: [for (let i = 4; i < datalen; i++)], which runs
    [datalen - 4] times (not at all when [datalen <= 4]). *)
Definition encrypt (combinedData : list Z) : list Z :=
  let datalen := length combinedData in
  iterate (datalen - 4) 4 combinedData.

(** ** Base64 (lines 131-132) *)

(** [String.fromCharCode(...bytes)]: one code unit per argument (ToUint16). *)
Definition String_fromCharCode (bytes : list Z) : jsstring :=
  map (fun b => b mod 65536) bytes.

Definition alphabet : jsstring :=
  lit "ABCDEFGHIJKLMNOPQRSTUVWXYZabcdefghijklmnopqrstuvwxyz0123456789+/".

Definition pad : Z := 61.

Definition sextet (i : Z) : Z := default pad (alphabet !! Z.to_nat i).

(** Standard base64 of a sequence of bytes, three bytes to four characters,
    the last group padded with [=]. *)
Fixpoint base64 (bs : list Z) : jsstring :=
  match bs with
  | [] => []
  | [a] =>
      [sextet (Z.shiftr a 2);
       sextet (Z.shiftl (Z.land a 3) 4);
       pad; pad]
  | [a; b] =>
      [sextet (Z.shiftr a 2);
       sextet (Z.lor (Z.shiftl (Z.land a 3) 4) (Z.shiftr b 4));
       sextet (Z.shiftl (Z.land b 15) 2);
       pad]
  | a :: b :: c :: rest =>
      sextet (Z.shiftr a 2)
      :: sextet (Z.lor (Z.shiftl (Z.land a 3) 4) (Z.shiftr b 4))
      :: sextet (Z.lor (Z.shiftl (Z.land b 15) 2) (Z.shiftr c 6))
      :: sextet (Z.land c 63)
      :: base64 rest
  end.

(** [btoa(s)]: a code unit above 255 raises InvalidCharacterError. *)
Definition btoa (s : jsstring) : result jsstring :=
  if forallb (fun c => (0 <=? c) && (c <=? 255)) s then Return (base64 s)
  else Throw InvalidCharacterError.

(** ** The environment and the resolution of the inputs (lines 50-67, 98) *)

(** What [getClientDataFromCookies()] resolved to; a missing property is
    [None]. *)
Record ClientData : Type := {
  fingerprint : option jsstring;
  clientDeviceModel : option jsstring;
  clientOs : option jsstring
}.

Record Env : Type := {
  clientData : option ClientData;   (* null or undefined is [None] *)
  NODE_ENV : option jsstring;       (* process.env.NODE_ENV *)
  Date_now : Z                      (* Date.now(), milliseconds *)
}.

(** Lines 52-56: [clientData ?? {}]. *)
Definition client (env : Env) : ClientData :=
  match clientData env with
  | Some c => c
  | None => {| fingerprint := None; clientDeviceModel := None; clientOs := None |}
  end.

(** The values fixed by lines 58-67 and the development flag of line 98. *)
Record Final : Type := {
  finalDeviceIdentifier : jsstring;
  finalSn : jsstring;
  finalTimestamp : Number;
  finalDeviceModel : jsstring;
  finalOs : jsstring;
  isDevelopment : bool
}.

(** Line 58. *)
Definition resolveDeviceIdentifier (env : Env) (deviceIdentifier : option jsstring)
  : jsstring :=
  lit "web-fingerprint-"
    ++ match fingerprint (client env) with
       | Some (c :: r) => c :: r
       | _ => or_lit deviceIdentifier (lit "fb9cd3a645fe5jim")
       end.

(** Line 65: [Math.floor(Date.now() / 1000)] when [timestamp] is falsy. *)
Definition resolveTimestamp (env : Env) (timestamp : option jsstring) : Number :=
  match timestamp with
  | Some (c :: r) => parseInt10 (c :: r)
  | _ => Int (Date_now env / 1000)
  end.

Definition resolve (env : Env)
    (deviceIdentifier sn timestamp deviceModel os : option jsstring) : Final :=
  {| finalDeviceIdentifier := resolveDeviceIdentifier env deviceIdentifier;
     finalSn := or_lit sn (lit "sn-85845426");
     finalTimestamp := resolveTimestamp env timestamp;
     finalDeviceModel :=
       or_lit (or_opt (clientDeviceModel (client env)) deviceModel)
              (lit "device_model-65656565");
     finalOs := or_lit (or_opt (clientOs (client env)) os) (lit "windows");
     isDevelopment := bool_decide (NODE_ENV env = Some (lit "development")) |}.

(** ** The payload (lines 98-105) *)

(** Line 98. *)
Definition dataString (f : Final) : jsstring :=
  finalDeviceIdentifier f ++ lit "|" ++ finalSn f ++ lit "|"
    ++ Number_toString (finalTimestamp f) ++ lit "|"
    ++ finalDeviceModel f ++ lit "|" ++ finalOs f ++ lit "|Web|3|"
    ++ (if isDevelopment f then lit "true" else lit "false").

(** Lines 95-105: the plaintext buffer. *)
Definition combinedData (f : Final) : result (list Z) :=
  let initialBytes := initialBytes (finalTimestamp f) in
  let dataBytes := TextEncoder_encode (dataString f) in
  let combinedData := Uint8Array_new (length initialBytes + length dataBytes) in
  combinedData ← Uint8Array_set combinedData initialBytes 0;
  Uint8Array_set combinedData dataBytes (length initialBytes).

(** ** [getRAuthToken] *)

Definition encodeFinal (f : Final) : result jsstring :=
  combinedData ← combinedData f;
  let combinedData := encrypt combinedData in
  let binaryString := String_fromCharCode combinedData in
  btoa binaryString.

Definition getRAuthToken (env : Env)
    (deviceIdentifier sn timestamp deviceModel os : option jsstring)
  : result jsstring :=
  encodeFinal (resolve env deviceIdentifier sn timestamp deviceModel os).

(** * The configuration module (config/reverb) *)

(** [import.meta.env]: every variable is a string or absent. *)
Record ImportMetaEnv : Type := {
  VITE_REVERB_APP_KEY : option jsstring;
  VITE_REVERB_HOST : option jsstring;
  VITE_REVERB_PORT : option jsstring;
  VITE_REVERB_SCHEME : option jsstring;
  VITE_REVERB_CLUSTER : option jsstring;
  VITE_AUTH_ENDPOINT : option jsstring;
  VITE_DEBUG : option jsstring;
  VITE_API_BASE_URL : option jsstring
}.

Definition hex_digit_value (c : Z) : option Z :=
  if (48 <=? c) && (c <=? 57) then Some (c - 48)
  else if (97 <=? c) && (c <=? 102) then Some (c - 87)
  else if (65 <=? c) && (c <=? 70) then Some (c - 55)
  else None.

Fixpoint hex_digits_prefix (s : jsstring) : list Z :=
  match s with
  | c :: r =>
      match hex_digit_value c with
      | Some d => d :: hex_digits_prefix r
      | None => []
      end
  | [] => []
  end.

Definition mathInt16 (ds : list Z) : Z :=
  fold_left (fun acc d => acc * 16 + d) ds 0.

(** [parseInt(s)] without a radix: as [parseInt(s, 10)], except that a
    text which, after white space and sign, starts with [0x] or [0X] is
    read in base 16 from the third character on. *)
Definition parseInt (s : jsstring) : Number :=
  let trimmed := trim_start s in
  let '(sign, rest) :=
    match trimmed with
    | c :: r =>
        if c =? 45 then (-1, r) else if c =? 43 then (1, r) else (1, trimmed)
    | [] => (1, trimmed)
    end in
  let decimal_value :=
    match digits_prefix rest with
    | [] => NaN
    | ds => round_double (sign * mathInt ds)
    end in
  match rest with
  | c0 :: x :: hex =>
      if (c0 =? 48) && ((x =? 120) || (x =? 88)) then
        match hex_digits_prefix hex with
        | [] => NaN
        | ds => round_double (sign * mathInt16 ds)
        end
      else decimal_value
  | _ => decimal_value
  end.

Record ReverbConfig : Type := {
  appKey : jsstring;
  host : jsstring;
  port : Number;
  forceTLS : bool;
  enabledTransports : list jsstring;
  cluster : jsstring;
  authEndpoint : jsstring;
  debug : bool
}.

(** Lines 7-16 of the configuration module. *)
Definition reverbConfig (env : ImportMetaEnv) : ReverbConfig :=
  {| appKey := or_lit (VITE_REVERB_APP_KEY env) (lit "hhqyhg6am5vugdnkodtl");
     host := or_lit (VITE_REVERB_HOST env) (lit "api.redstrim.com");
     port := parseInt (or_lit (VITE_REVERB_PORT env) (lit "443"));
     forceTLS :=
       bool_decide (VITE_REVERB_SCHEME env = Some (lit "https")) || true;
     enabledTransports := [lit "ws"; lit "wss"];
     cluster := or_lit (VITE_REVERB_CLUSTER env) (lit "mt1");
     authEndpoint :=
       or_lit (VITE_AUTH_ENDPOINT env)
         (lit "https://api.redstrim.com/api/admin/broadcasting/auth");
     debug := bool_decide (VITE_DEBUG env = Some (lit "true")) || true |}.

(** [STORAGE_KEYS] (lines 30-34). *)
Definition JWT_TOKEN : jsstring := lit "scramble_jwt_token".
Definition R_AUTH_TOKEN : jsstring := lit "r_auth_token".
Definition DEVICE_TYPE : jsstring := lit "scramble_device_type".

Module User.
Record t : Type := {
  email : jsstring;
  label : jsstring;
  userType : jsstring
}.
End User.

(** [PREDEFINED_USERS] (lines 39-44). *)
Definition PREDEFINED_USERS : list User.t :=
  [ {| User.email := lit "super.admin@redline.com";
       User.label := lit "Super Admin";
       User.userType := lit "admin" |};
    {| User.email := lit "editor@redline.com";
       User.label := lit "Editor (have to assign role to login)";
       User.userType := lit "admin" |};
    {| User.email := lit "user@redline.com";
       User.label := lit "User";
       User.userType := lit "user" |};
    {| User.email := lit "support@redline.com";
       User.label := lit "Support (have to assign role to login)";
       User.userType := lit "admin" |} ].

(** [API_BASE_URL] (line 54). *)
Definition API_BASE_URL (env : ImportMetaEnv) : jsstring :=
  or_lit (VITE_API_BASE_URL env) (lit "https://api.redstrim.com").

(** * The login hook (hooks/useLogin.ts, the version that calls
    [getRAuthToken]) *)

(** [s.startsWith(p)] at position 0 and [s.includes(p)]. *)
Fixpoint starts_with (s p : jsstring) : bool :=
  match p, s with
  | [], _ => true
  | c :: p', d :: s' => (c =? d) && starts_with s' p'
  | _ :: _, [] => false
  end.

Fixpoint includes (s p : jsstring) : bool :=
  starts_with s p
  || match s with
     | [] => false
     | _ :: s' => includes s' p
     end.

(** Lines 228-238: [getUserTypePath]. *)
Definition getUserTypePath (email : jsstring) : jsstring :=
  let predefinedUser :=
    List.find (fun u => bool_decide (User.email u = email)) PREDEFINED_USERS in
  match predefinedUser with
  | Some predefinedUser =>
      if bool_decide (User.userType predefinedUser = lit "admin")
      then lit "/admin" else lit ""
  | None =>
      if includes email (lit "admin")
         || bool_decide (email = lit "editor@redline.com")
         || bool_decide (email = lit "support@redline.com")
      then lit "/admin"
      else lit ""
  end.

(** [LoginResponse['data']['user']]. *)
Record UserInfo : Type := {
  id : Number;
  user_email : jsstring;
  first_name : jsstring;
  last_name : jsstring
}.

(** The five [useState] cells of the hook. *)
Record HookState : Type := {
  isLoading : bool;
  error : option jsstring;
  jwtToken : option jsstring;
  rAuthToken : option jsstring;
  user : option UserInfo
}.

(** The browser side: [localStorage] and the state of the hook.  The
    state is the one reached once the queued updates are applied; the
    operations of [localStorage] are taken to succeed. *)
Record World : Type := {
  localStorage : gmap jsstring jsstring;
  hook : HookState
}.

(** Lines 243-256: [generateRAuthToken].  The token is stored only when
    it is truthy; an exception of the codec is caught and gives [null]. *)
Definition generateRAuthToken (env : Env) (w : World)
  : World * option jsstring :=
  match getRAuthToken env None None None None None with
  | Return (c :: r) =>
      let token := c :: r in
      ({| localStorage := <[R_AUTH_TOKEN := token]> (localStorage w);
          hook := {| isLoading := isLoading (hook w);
                     error := error (hook w);
                     jwtToken := jwtToken (hook w);
                     rAuthToken := Some token;
                     user := user (hook w) |} |},
       Some token)
  | Return [] => (w, None)
  | Throw _ => (w, None)
  end.

(** What a [catch] clause receives: an [Error] with its message, or any
    other value. *)
Inductive Thrown : Type :=
| ThrownError (message : jsstring)
| ThrownOther.

(** The JSON body of the login response, as far as [login] reads it:
    [data.message], [data.data?.access_token] and [data.data.user]. *)
Record LoginData : Type := {
  message : option jsstring;
  access_token : option jsstring;
  data_user : option UserInfo
}.

(** [await response.json()]: it rejects, or yields [null] (reading a
    property of it raises a TypeError with the message of the engine), or
    yields a value whose properties can be read. *)
Inductive JsonOutcome : Type :=
| JsonThrows (e : Thrown)
| JsonNull (typeErrorMessage : jsstring)
| JsonValue (data : LoginData).

(** [await fetch(...)]: it rejects, or yields a response with its [ok]
    flag and its body. *)
Inductive FetchOutcome : Type :=
| FetchThrows (e : Thrown)
| FetchResponse (ok : bool) (json : JsonOutcome).

(** The request of lines 283-287; [body] is the object handed to
    [JSON.stringify]. *)
Record Request : Type := {
  url : jsstring;
  method : jsstring;
  headers : gmap jsstring jsstring;
  body : jsstring * jsstring
}.

(** Lines 270-287: the request, given the outcome of
    [generateRAuthToken]. *)
Definition loginRequest (ienv : ImportMetaEnv) (rAuth : option jsstring)
    (email password : jsstring) : Request :=
  let userTypePath := getUserTypePath email in
  let headers : gmap jsstring jsstring :=
    <[lit "Accept" := lit "application/json"]>
      (<[lit "Content-Type" := lit "application/json"]> ∅) in
  let headers :=
    match rAuth with
    | Some (c :: r) => <[lit "R-Auth" := c :: r]> headers
    | _ => headers
    end in
  {| url := API_BASE_URL ienv ++ lit "/api" ++ userTypePath ++ lit "/login";
     method := lit "POST";
     headers := headers;
     body := (email, password) |}.

(** Lines 289-308: what the [try] block makes of the response: the
    access token and the user, or the value it throws. *)
Definition loginOutcome (outcome : FetchOutcome)
  : Thrown + (jsstring * option UserInfo) :=
  match outcome with
  | FetchThrows e => inl e
  | FetchResponse ok json =>
      match json with
      | JsonThrows e => inl e
      | JsonNull typeErrorMessage => inl (ThrownError typeErrorMessage)
      | JsonValue data =>
          if negb ok then
            inl (ThrownError (or_lit (message data) (lit "Login failed")))
          else
            match access_token data with
            | Some (c :: r) => inr (c :: r, data_user data)
            | _ => inl (ThrownError (lit "No access token received"))
            end
      end
  end.

(** Lines 261-316: [login]. *)
Definition login (env : Env) (ienv : ImportMetaEnv)
    (fetch : Request -> FetchOutcome) (email password : jsstring) (w : World)
  : World * bool :=
  let w := {| localStorage := localStorage w;
              hook := {| isLoading := true;
                         error := None;
                         jwtToken := jwtToken (hook w);
                         rAuthToken := rAuthToken (hook w);
                         user := user (hook w) |} |} in
  let '(w, rAuth) := generateRAuthToken env w in
  let response := fetch (loginRequest ienv rAuth email password) in
  match loginOutcome response with
  | inr (token, u) =>
      ({| localStorage := <[JWT_TOKEN := token]> (localStorage w);
          hook := {| isLoading := false;
                     error := error (hook w);
                     jwtToken := Some token;
                     rAuthToken := rAuthToken (hook w);
                     user := u |} |},
       true)
  | inl err =>
      let message :=
        match err with
        | ThrownError message => message
        | ThrownOther => lit "Login failed"
        end in
      ({| localStorage := localStorage w;
          hook := {| isLoading := false;
                     error := Some message;
                     jwtToken := jwtToken (hook w);
                     rAuthToken := rAuthToken (hook w);
                     user := user (hook w) |} |},
       false)
  end.

(** Lines 321-328: [logout]. *)
Definition logout (w : World) : World :=
  {| localStorage := delete R_AUTH_TOKEN (delete JWT_TOKEN (localStorage w));
     hook := {| isLoading := isLoading (hook w);
                error := None;
                jwtToken := None;
                rAuthToken := None;
                user := None |} |}.

(** Lines 333-345: [loadStoredTokens]; [getItem] gives [null] for a
    missing key. *)
Definition loadStoredTokens (w : World)
  : World * (option jsstring * option jsstring) :=
  let storedJwt := localStorage w !! JWT_TOKEN in
  let storedRAuth := localStorage w !! R_AUTH_TOKEN in
  ({| localStorage := localStorage w;
      hook := {| isLoading := isLoading (hook w);
                 error := error (hook w);
                 jwtToken :=
                   if truthy storedJwt then storedJwt else jwtToken (hook w);
                 rAuthToken :=
                   if truthy storedRAuth then storedRAuth
                   else rAuthToken (hook w);
                 user := user (hook w) |} |},
   (storedJwt, storedRAuth)).

(** * The login hook, the version that asks the server for the token
    (hooks/useLogin.ts, lines 66-83) *)

Module RemoteLogin.

(** The JSON body of the answer, as far as the hook reads it:
    [data.token]. *)
Inductive RAuthJson : Type :=
| RAuthJsonThrows (e : Thrown)
| RAuthJsonNull (typeErrorMessage : jsstring)
| RAuthJsonValue (token : option jsstring).

Inductive RAuthFetch : Type :=
| RAuthFetchThrows (e : Thrown)
| RAuthFetchResponse (ok : bool) (json : RAuthJson).

(** The address of lines 68-70. *)
Definition encodeUrl (ienv : ImportMetaEnv) : jsstring :=
  API_BASE_URL ienv
    ++ lit "/api/admin/rauth/test/encode?device_identifier=12345678910&client_type=web&sn=12345&is_r_auth_enabled=0".

(** Lines 66-83: [generateRAuthToken].  The [ok] flag of the response is
    not read; every exception is caught and gives [null]. *)
Definition generateRAuthToken (ienv : ImportMetaEnv)
    (fetch : jsstring -> RAuthFetch) (w : World) : World * option jsstring :=
  match fetch (encodeUrl ienv) with
  | RAuthFetchResponse _ (RAuthJsonValue (Some (c :: r))) =>
      let token := c :: r in
      ({| localStorage := <[R_AUTH_TOKEN := token]> (localStorage w);
          hook := {| isLoading := isLoading (hook w);
                     error := error (hook w);
                     jwtToken := jwtToken (hook w);
                     rAuthToken := Some token;
                     user := user (hook w) |} |},
       Some token)
  | _ => (w, None)
  end.

End RemoteLogin.

(** ** Auxiliary notions used in the statements *)

Definition int32 (z : Z) : Prop := - 2 ^ 31 <= z < 2 ^ 31.

Definition byte (z : Z) : Prop := 0 <= z < 256.

Definition sextet_range (i : Z) : Prop := 0 <= i < 64.

(** The fields of the payload in their order, and their concatenation
    with a separator, as the specification describes the field string. *)
Definition fields (f : Final) : list jsstring :=
  [finalDeviceIdentifier f; finalSn f; Number_toString (finalTimestamp f);
   finalDeviceModel f; finalOs f; lit "Web"; lit "3";
   if isDevelopment f then lit "true" else lit "false"].

Fixpoint join (sep : jsstring) (l : list jsstring) : jsstring :=
  match l with
  | [] => []
  | [x] => x
  | x :: rest => x ++ sep ++ join sep rest
  end.

(** The number of [=] that close the base64 text of [n] bytes. *)
Definition padding (n : nat) : nat := ((3 - n mod 3) mod 3)%nat.

(** The value that line 125 stores at index [i] of [combinedData]. *)
Definition cell (combinedData : list Z) (i : nat) : Z :=
  ToUint8 (bit_xor (bit_xor (read combinedData i) (read key (i mod keylen)))
               (read combinedData (i mod 4))).

(** ** Sample inputs *)

(** No client data, a production build, some instant of the clock. *)
Definition sample_env : Env :=
  {| clientData := None;
     NODE_ENV := Some (lit "production");
     Date_now := 1700000000123 |}.

(** The same surroundings a few hundred milliseconds later, with
    [NODE_ENV] unset. *)
Definition sample_env_later : Env :=
  {| clientData := None; NODE_ENV := None; Date_now := 1700000000987 |}.

(** Client data that carries a fingerprint only. *)
Definition sample_env_cookie : Env :=
  {| clientData :=
       Some {| fingerprint := Some (lit "abc123");
               clientDeviceModel := None;
               clientOs := None |};
     NODE_ENV := Some (lit "development");
     Date_now := 1700000000123 |}.

Definition sample_final : Final :=
  resolve sample_env (Some (lit "test")) (Some (lit "sn-1")) (Some (lit "0"))
    (Some (lit "model-1")) (Some (lit "linux")).

Definition sample_text : jsstring :=
  lit "web-fingerprint-test|sn-1|0|model-1|linux|Web|3|false".

Definition sample_plain : list Z := [0; 0; 19; 19] ++ sample_text.

(** A second resolved input with the timestamp of [sample_final] and
    every other field different. *)
Definition sample_final_cookie : Final :=
  resolve sample_env_cookie None None (Some (lit "0")) None None.

Definition sample_plain_cookie : list Z :=
  [0; 0; 19; 19]
    ++ lit "web-fingerprint-abc123|sn-85845426|0|device_model-65656565|windows|Web|3|true".

(** [sample_plain] with the byte at index 20 replaced. *)
Definition sample_plain_edit : list Z := <[20%nat := 65]> sample_plain.

(** A character that a base64 text may hold. *)
Definition text_safe (c : Z) : Prop := c ∈ alphabet \/ c = pad.

(** A code unit of the ASCII range. *)
Definition ascii_unit (c : Z) : Prop := 0 <= c < 128.

(** A code unit that is a decimal digit. *)
Definition digit_unit (c : Z) : Prop := 48 <= c <= 57.

(** The decimal numeral of an integer: a minus sign when it is negative,
    then its digits, most significant first and without a leading zero
    (the numeral of zero is the digit zero). *)
Definition decimal_numeral (z : Z) (t : jsstring) : Prop :=
  exists ds,
    t = (if z <? 0 then lit "-" else []) ++ ds /\
    ds <> [] /\
    Forall digit_unit ds /\
    mathInt (map (fun c => c - 48) ds) = Z.abs z /\
    (forall more, ds = 48 :: more -> more = []).

(** The resolved input of a call whose timestamp is the text [abc]. *)
Definition sample_final_unparsable : Final :=
  resolve sample_env None None (Some (lit "abc")) None None.

(** [import.meta.env] with two of its variables replaced. *)
Definition with_scheme_debug (env : ImportMetaEnv)
    (scheme dbg : option jsstring) : ImportMetaEnv :=
  {| VITE_REVERB_APP_KEY := VITE_REVERB_APP_KEY env;
     VITE_REVERB_HOST := VITE_REVERB_HOST env;
     VITE_REVERB_PORT := VITE_REVERB_PORT env;
     VITE_REVERB_SCHEME := scheme;
     VITE_REVERB_CLUSTER := VITE_REVERB_CLUSTER env;
     VITE_AUTH_ENDPOINT := VITE_AUTH_ENDPOINT env;
     VITE_DEBUG := dbg;
     VITE_API_BASE_URL := VITE_API_BASE_URL env |}.

(** An environment without any variable, and one that sets the port. *)
Definition sample_ienv : ImportMetaEnv :=
  {| VITE_REVERB_APP_KEY := None; VITE_REVERB_HOST := None;
     VITE_REVERB_PORT := None; VITE_REVERB_SCHEME := None;
     VITE_REVERB_CLUSTER := None; VITE_AUTH_ENDPOINT := None;
     VITE_DEBUG := None; VITE_API_BASE_URL := None |}.

Definition sample_ienv_port : ImportMetaEnv :=
  {| VITE_REVERB_APP_KEY := None; VITE_REVERB_HOST := None;
     VITE_REVERB_PORT := Some (lit "8080"); VITE_REVERB_SCHEME := Some (lit "http");
     VITE_REVERB_CLUSTER := None; VITE_AUTH_ENDPOINT := None;
     VITE_DEBUG := Some (lit "false"); VITE_API_BASE_URL := None |}.

(** The message that the [catch] clause of [login] stores. *)
Definition caught_message (err : Thrown) : jsstring :=
  match err with
  | ThrownError message => message
  | ThrownOther => lit "Login failed"
  end.

(** A browser with an old session in its storage, and two servers: one
    that accepts the login, one that refuses it. *)
Definition sample_world : World :=
  {| localStorage := <[JWT_TOKEN := lit "old-jwt"]> (<[lit "theme" := lit "dark"]> ∅);
     hook := {| isLoading := false; error := None; jwtToken := None;
                rAuthToken := None; user := None |} |}.

Definition sample_fetch_ok (_ : Request) : FetchOutcome :=
  FetchResponse true
    (JsonValue {| message := None;
                  access_token := Some (lit "new-jwt");
                  data_user := None |}).

Definition sample_fetch_refused (_ : Request) : FetchOutcome :=
  FetchResponse false
    (JsonValue {| message := Some (lit "Invalid credentials");
                  access_token := None;
                  data_user := None |}).

(** A server that answers the token request with an error status and a
    token all the same. *)
Definition sample_fetch_rauth (_ : jsstring) : RemoteLogin.RAuthFetch :=
  RemoteLogin.RAuthFetchResponse false
    (RemoteLogin.RAuthJsonValue (Some (lit "dG9rZW4="))).

(** * Properties *)

(** ** Signed 32-bit range *)

Lemma wrap32_int32 z : int32 (wrap32 z).
Proof.
  unfold int32, wrap32.
  pose proof (Z.mod_pos_bound (z + 2 ^ 31) (2 ^ 32)). lia.
Qed.

Lemma wrap32_id z : int32 z -> wrap32 z = z.
Proof.
  unfold int32, wrap32. intros H.
  rewrite Z.mod_small; lia.
Qed.

Lemma wrap32_idem z : wrap32 (wrap32 z) = wrap32 z.
Proof. apply wrap32_id, wrap32_int32. Qed.

Lemma int32_sign z : int32 z <-> Z.shiftr z 31 = 0 \/ Z.shiftr z 31 = -1.
Proof.
  unfold int32. rewrite Z.shiftr_div_pow2 by lia.
  pose proof (Z.div_mod z (2 ^ 31)).
  pose proof (Z.mod_pos_bound z (2 ^ 31)).
  lia.
Qed.

Lemma int32_lxor a b : int32 a -> int32 b -> int32 (Z.lxor a b).
Proof.
  rewrite !int32_sign, Z.shiftr_lxor.
  intros [-> | ->] [-> | ->]; simpl; auto.
Qed.

Lemma int32_shiftr a k : 0 <= k -> int32 a -> int32 (Z.shiftr a k).
Proof.
  unfold int32. intros Hk Ha. rewrite Z.shiftr_div_pow2 by lia.
  assert (0 < 2 ^ k) by (apply Z.pow_pos_nonneg; lia).
  split.
  - apply Z.div_le_lower_bound; [lia |]. nia.
  - apply Z.div_lt_upper_bound; [lia |]. nia.
Qed.

Lemma ToInt32_int32 n : int32 (ToInt32 n).
Proof. destruct n; simpl; first [apply wrap32_int32 | unfold int32; lia]. Qed.

(** ** Bytes *)

Lemma byte_high z : byte z <-> Z.shiftr z 8 = 0.
Proof.
  unfold byte. rewrite Z.shiftr_div_pow2 by lia.
  pose proof (Z.div_mod z (2 ^ 8)).
  pose proof (Z.mod_pos_bound z (2 ^ 8)).
  lia.
Qed.

Lemma byte_lxor a b : byte a -> byte b -> byte (Z.lxor a b).
Proof.
  rewrite !byte_high, Z.shiftr_lxor. intros -> ->. reflexivity.
Qed.

Lemma byte_int32 z : byte z -> int32 z.
Proof. unfold byte, int32. lia. Qed.

Lemma ToUint8_byte n : byte (ToUint8 n).
Proof.
  destruct n; simpl; unfold byte; try lia.
  pose proof (Z.mod_pos_bound z 256). lia.
Qed.

Lemma ToUint8_id z : byte z -> ToUint8 (Int z) = z.
Proof. unfold byte. intros H. simpl. apply Z.mod_small. lia. Qed.

(** The XOR of line 125 on three bytes is the plain XOR of their values. *)
Lemma xor_bytes p k s :
  byte p -> byte k -> byte s ->
  ToUint8 (bit_xor (bit_xor (Int p) (Int k)) (Int s)) = Z.lxor (Z.lxor p k) s.
Proof.
  intros Hp Hk Hs. unfold bit_xor. cbn [ToInt32].
  rewrite (wrap32_id p), (wrap32_id k), (wrap32_id s) by (apply byte_int32; assumption).
  rewrite wrap32_id by (apply byte_int32, byte_lxor; assumption).
  apply ToUint8_id. apply byte_lxor; [apply byte_lxor |]; assumption.
Qed.

(** ** The seed *)

Lemma mix_wrapped t : mix (Int t) = Int (Wrapped32.step2 (wrap32 t)).
Proof.
  unfold mix, bit_xor, shl, Wrapped32.step2. cbn [ToInt32].
  change (21 mod 32) with 21. change (19 mod 32) with 19.
  rewrite !wrap32_idem. f_equal.
  rewrite (wrap32_id (Z.lxor (wrap32 _) (wrap32 _)))
    by (apply int32_lxor; apply wrap32_int32).
  symmetry. apply wrap32_id.
  apply int32_lxor; [apply int32_lxor |]; apply wrap32_int32.
Qed.

Lemma mix_int32 n : exists r, mix n = Int r /\ int32 r.
Proof.
  unfold mix, bit_xor. eexists. split; [reflexivity |].
  apply int32_lxor; apply ToInt32_int32.
Qed.

(** Up to 2^53 in magnitude an integer is a double. *)
Lemma round_double_safe z : safe_integer z -> round_double z = Int z.
Proof.
  unfold safe_integer, round_double. intros Hz.
  destruct (Z.ltb_spec (Z.abs z) (2 ^ 53)) as [_ | Hbig]; [reflexivity |].
  assert (Hcases : z = 2 ^ 53 \/ z = - 2 ^ 53) by lia.
  destruct Hcases as [-> | ->]; vm_compute; reflexivity.
Qed.

(** The multiply-add of line 76 on a signed 32-bit value is exact. *)
Lemma scale_int32 r : int32 r -> scale (Int r) = Int (r * 251 + 19).
Proof.
  unfold int32, scale, mul, add. intros Hr.
  rewrite (round_double_safe (r * 251)) by (unfold safe_integer; lia).
  apply round_double_safe. unfold safe_integer. lia.
Qed.

Lemma random_exact n : exact (random_of n).
Proof.
  unfold random_of. destruct (mix_int32 n) as (r & -> & Hr).
  rewrite (scale_int32 r Hr).
  unfold exact, safe_integer, int32 in *. lia.
Qed.

Lemma extract_wrapped r z :
  r = Int z ->
  extract r =
    let '(b0, b1, b2, b3) := Wrapped32.bytes_of (wrap32 z) in
    (Int b0, Int b1, Int b2, Int b3).
Proof.
  intros ->. unfold extract, Wrapped32.bytes_of, bit_and, sar. cbn [ToInt32].
  change (wrap32 255) with 255.
  change (24 mod 32) with 24. change (16 mod 32) with 16.
  change (8 mod 32) with 8.
  rewrite !(wrap32_id (Z.shiftr _ _))
    by (apply int32_shiftr; [lia | apply wrap32_int32]).
  reflexivity.
Qed.

(** Reduction to 32 bits commutes with the operations of the seed:
    wrapping at every step and wrapping once give the same word. *)
Lemma wrap32_mod a : wrap32 a mod 2 ^ 32 = a mod 2 ^ 32.
Proof.
  unfold wrap32. rewrite Zminus_mod_idemp_l. f_equal. lia.
Qed.

Lemma wrap32_eq a b : a mod 2 ^ 32 = b mod 2 ^ 32 -> wrap32 a = wrap32 b.
Proof.
  intros H. unfold wrap32.
  rewrite <- (Zplus_mod_idemp_l a), <- (Zplus_mod_idemp_l b), H. reflexivity.
Qed.

Lemma wrap32_shiftl a k :
  0 <= k -> wrap32 (Z.shiftl (wrap32 a) k) = wrap32 (Z.shiftl a k).
Proof.
  intros Hk. apply wrap32_eq. rewrite !Z.shiftl_mul_pow2 by exact Hk.
  rewrite <- Zmult_mod_idemp_l, wrap32_mod, Zmult_mod_idemp_l. reflexivity.
Qed.

Lemma lxor_mod a b :
  Z.lxor a b mod 2 ^ 32 = Z.lxor (a mod 2 ^ 32) (b mod 2 ^ 32).
Proof.
  rewrite <- !Z.land_ones by lia. apply Z.bits_inj'. intros n Hn.
  rewrite !Z.lxor_spec, !Z.land_spec, !Z.lxor_spec.
  destruct (Z.testbit (Z.ones 32) n);
    rewrite ?andb_true_r, ?andb_false_r; reflexivity.
Qed.

Lemma wrap32_muladd a c d : wrap32 (wrap32 a * c + d) = wrap32 (a * c + d).
Proof.
  apply wrap32_eq.
  rewrite <- Zplus_mod_idemp_l, <- Zmult_mod_idemp_l, wrap32_mod.
  rewrite Zmult_mod_idemp_l, Zplus_mod_idemp_l. reflexivity.
Qed.

Lemma step_word t :
  Wrapped32.step3 (Wrapped32.step2 (wrap32 t)) = Wrapped32.word t.
Proof.
  unfold Wrapped32.step3, Wrapped32.step2, Wrapped32.word.
  rewrite wrap32_muladd. apply wrap32_eq.
  rewrite <- Zplus_mod_idemp_l, <- Zmult_mod_idemp_l.
  rewrite <- (Zplus_mod_idemp_l (_ * 251)),
    <- (Zmult_mod_idemp_l (Z.lxor (Z.lxor (Z.shiftl t 21) _) _)).
  f_equal. f_equal. f_equal. f_equal.
  rewrite !lxor_mod, !wrap32_mod.
  rewrite <- !(wrap32_mod (Z.shiftl (wrap32 t) _)), !wrap32_shiftl by lia.
  rewrite !wrap32_mod. reflexivity.
Qed.

(** C2: for the timestamp 0 the mixing step leaves 0, the multiply-add
    gives 19, the extracted bytes are 0, 0, 0, 19 and the chained XOR
    turns them into the seed 0, 0, 19, 19. *)
Theorem seed_of_zero :
  mix (Int 0) = Int 0 /\
  random_of (Int 0) = Int 19 /\
  extract (random_of (Int 0)) = (Int 0, Int 0, Int 0, Int 19) /\
  chain (extract (random_of (Int 0))) = (Int 0, Int 0, Int 19, Int 19) /\
  initialBytes (Int 0) = [0; 0; 19; 19].
Proof. repeat split; vm_compute; reflexivity. Qed.

(** C6: for every integer timestamp, inside or outside the signed 32-bit
    range, the mixing step of the code is the wrapped 32-bit one, the
    multiply-add of the code (a double operation, never truncated in the
    source) stays an exactly represented integer, and the four bytes the
    code extracts from it are the bytes of the computation in which every
    step, the multiply-add included, wraps at 32 bits; these are also the
    bytes of the whole expression reduced to 32 bits once. *)
Theorem seed_bytes_wrap32 (t : Z) :
  mix (Int t) = Int (Wrapped32.step2 (wrap32 t)) /\
  exact (random_of (Int t)) /\
  extract (random_of (Int t)) =
    (let '(b0, b1, b2, b3) := Wrapped32.extracted t in
     (Int b0, Int b1, Int b2, Int b3)) /\
  Wrapped32.extracted t = Wrapped32.bytes_of (Wrapped32.word t).
Proof.
  split; [apply mix_wrapped |]. split; [apply random_exact |].
  split.
  - unfold random_of, Wrapped32.extracted. rewrite mix_wrapped.
    apply extract_wrapped. apply scale_int32.
    unfold Wrapped32.step2. apply wrap32_int32.
  - unfold Wrapped32.extracted. rewrite step_word. reflexivity.
Qed.

(** ** The plaintext buffer *)

Lemma Return_inj {A : Type} (a b : A) : Return a = Return b -> a = b.
Proof. intros H. congruence. Qed.

Lemma initialBytes_length t : length (initialBytes t) = 4%nat.
Proof.
  unfold initialBytes.
  destruct (chain (extract (random_of t))) as [[[b0 b1] b2] b3].
  reflexivity.
Qed.

Lemma initialBytes_bytes t : Forall byte (initialBytes t).
Proof.
  unfold initialBytes.
  destruct (chain (extract (random_of t))) as [[[b0 b1] b2] b3].
  repeat constructor; apply ToUint8_byte.
Qed.

(** The two [set] calls of lines 104-105 fit the buffer of line 102 and
    leave the seed followed by the encoded string. *)
Lemma combinedData_eq f :
  combinedData f =
    Return (initialBytes (finalTimestamp f) ++ TextEncoder_encode (dataString f)).
Proof.
  unfold combinedData, Uint8Array_set, Uint8Array_new.
  set (ib := initialBytes (finalTimestamp f)).
  set (db := TextEncoder_encode (dataString f)).
  assert (Hib : length ib = 4%nat) by apply initialBytes_length.
  rewrite length_replicate, Hib.
  change (0 + 4)%nat with 4%nat.
  destruct (Nat.leb_spec 4 (4 + length db)) as [_ | ?]; [| lia].
  cbn [mbind result_bind]. rewrite firstn_O. cbn [app].
  assert (Hlen : length (ib ++ drop 4 (replicate (4 + length db) 0))
                 = (4 + length db)%nat).
  { rewrite length_app, length_drop, length_replicate, Hib. lia. }
  rewrite Hlen.
  destruct (Nat.leb_spec (4 + length db) (4 + length db)) as [_ | ?]; [| lia].
  f_equal.
  rewrite (take_app_length' ib) by (symmetry; exact Hib).
  rewrite drop_ge by (rewrite Hlen; lia).
  rewrite app_nil_r. reflexivity.
Qed.

(** ** The cipher loop *)

Lemma loop_body_cell buf i : loop_body buf i = <[i := cell buf i]> buf.
Proof. reflexivity. Qed.

Lemma iterate_length n : forall i buf, length (iterate n i buf) = length buf.
Proof.
  induction n as [| n IH]; intros i buf; simpl; [reflexivity |].
  rewrite IH, loop_body_cell. apply length_insert.
Qed.

Lemma read_insert_ne buf i j v : i <> j -> read (<[i := v]> buf) j = read buf j.
Proof. intros H. unfold read. rewrite list_lookup_insert_ne by exact H. reflexivity. Qed.

(** A write at an index of the loop changes no cell of a later index:
    the loop reads its own index and an index below 4 only. *)
Lemma cell_insert buf i j v :
  (4 <= i)%nat -> i <> j -> cell (<[i := v]> buf) j = cell buf j.
Proof.
  intros Hi Hj. unfold cell.
  rewrite !read_insert_ne; [reflexivity | | exact Hj].
  pose proof (Nat.mod_upper_bound j 4). lia.
Qed.

Lemma iterate_lookup n : forall i buf j,
  (4 <= i)%nat -> (i + n <= length buf)%nat ->
  iterate n i buf !! j =
    if decide (i <= j < i + n)%nat then Some (cell buf j) else buf !! j.
Proof.
  induction n as [| n IH]; intros i buf j Hi Hlen; simpl.
  - destruct (decide _); [lia | reflexivity].
  - rewrite IH by (rewrite ?loop_body_cell, ?length_insert; lia).
    rewrite loop_body_cell.
    destruct (decide (S i <= j < S i + n)%nat) as [Hin | Hout].
    + rewrite cell_insert by lia.
      destruct (decide _); [reflexivity | lia].
    + destruct (decide (i = j)) as [<- | Hne].
      * rewrite list_lookup_insert_eq by lia.
        destruct (decide _); [reflexivity | lia].
      * rewrite list_lookup_insert_ne by exact Hne.
        destruct (decide _); [lia | reflexivity].
Qed.

Lemma encrypt_length buf : length (encrypt buf) = length buf.
Proof. apply iterate_length. Qed.

Lemma encrypt_lookup_low buf j : (j < 4)%nat -> encrypt buf !! j = buf !! j.
Proof.
  intros Hj. unfold encrypt.
  destruct (le_lt_dec 4 (length buf)) as [Hlen | Hlen].
  - rewrite iterate_lookup by lia. destruct (decide _); [lia | reflexivity].
  - replace (length buf - 4)%nat with 0%nat by lia. reflexivity.
Qed.

Lemma encrypt_lookup_high buf j :
  (4 <= j < length buf)%nat -> encrypt buf !! j = Some (cell buf j).
Proof.
  intros Hj. unfold encrypt.
  rewrite iterate_lookup by lia. destruct (decide _); [reflexivity | lia].
Qed.

Lemma encrypt_prefix buf : take 4 (encrypt buf) = take 4 buf.
Proof.
  apply list_eq. intros j.
  destruct (le_lt_dec 4 j).
  - rewrite !lookup_take_ge by lia. reflexivity.
  - rewrite !lookup_take_lt by lia. apply encrypt_lookup_low. lia.
Qed.

Lemma key_bytes : Forall byte key.
Proof. unfold key, byte. repeat constructor; lia. Qed.

Lemma iterate_bytes n : forall i buf,
  Forall byte buf -> Forall byte (iterate n i buf).
Proof.
  induction n as [| n IH]; intros i buf Hb; simpl; [exact Hb |].
  apply IH. rewrite loop_body_cell.
  apply Forall_insert; [exact Hb | apply ToUint8_byte].
Qed.

Lemma encrypt_bytes buf : Forall byte buf -> Forall byte (encrypt buf).
Proof. apply iterate_bytes. Qed.

(** ** The encoder produces bytes *)

Lemma byte_land_mask x m : byte m -> byte (Z.land x m).
Proof.
  rewrite !byte_high, Z.shiftr_land. intros ->. apply Z.land_0_r.
Qed.

Lemma byte_lor a b : byte a -> byte b -> byte (Z.lor a b).
Proof.
  rewrite !byte_high, Z.shiftr_lor. intros -> ->. reflexivity.
Qed.

Ltac byte_const := unfold byte; lia.

Lemma utf8_of_code_point_bytes cp : Forall byte (utf8_of_code_point cp).
Proof.
  unfold utf8_of_code_point.
  repeat match goal with |- context [if ?b then _ else _] => destruct b end;
    repeat constructor;
    first [ apply byte_land_mask; byte_const
          | apply byte_lor; [byte_const | apply byte_land_mask; byte_const] ].
Qed.

Lemma TextEncoder_encode_bytes_upto n : forall s,
  (length s <= n)%nat -> Forall byte (TextEncoder_encode s).
Proof.
  induction n as [| n IH]; intros s Hn.
  - destruct s; [constructor | simpl in Hn; lia].
  - destruct s as [| c rest]; [constructor |].
    simpl in Hn. cbn [TextEncoder_encode].
    assert (Hrest : Forall byte (TextEncoder_encode rest)) by (apply IH; lia).
    destruct (is_lead c).
    + destruct rest as [| d rest'].
      * apply utf8_of_code_point_bytes.
      * destruct (is_trail d).
        -- apply Forall_app. split; [apply utf8_of_code_point_bytes |].
           apply IH. simpl in Hn. lia.
        -- apply Forall_app. split; [apply utf8_of_code_point_bytes | exact Hrest].
    + destruct (is_trail c);
        (apply Forall_app; split; [apply utf8_of_code_point_bytes | exact Hrest]).
Qed.

Lemma TextEncoder_encode_bytes s : Forall byte (TextEncoder_encode s).
Proof. apply (TextEncoder_encode_bytes_upto (length s)). lia. Qed.

Lemma plain_bytes f plain : combinedData f = Return plain -> Forall byte plain.
Proof.
  rewrite combinedData_eq. intros <-%Return_inj.
  apply Forall_app. split; [apply initialBytes_bytes | apply TextEncoder_encode_bytes].
Qed.

Lemma plain_prefix f plain :
  combinedData f = Return plain -> take 4 plain = initialBytes (finalTimestamp f).
Proof.
  rewrite combinedData_eq. intros <-%Return_inj.
  apply take_app_length'. symmetry. apply initialBytes_length.
Qed.

Lemma plain_suffix f plain :
  combinedData f = Return plain -> drop 4 plain = TextEncoder_encode (dataString f).
Proof.
  rewrite combinedData_eq. intros <-%Return_inj.
  apply drop_app_length'. symmetry. apply initialBytes_length.
Qed.

(** C1: on every plaintext buffer the pipeline builds, the cipher stage
    leaves the bytes at indices 0-3 equal to the seed, and at every index
    [i] from 4 to the last it stores the plaintext byte at [i] xor the key
    byte at [i mod 64] xor the byte at [i mod 4], which is a seed byte. *)
Theorem cipher_stage_bytes (f : Final) (plain : list Z) :
  combinedData f = Return plain ->
  take 4 (encrypt plain) = initialBytes (finalTimestamp f) /\
  forall i : nat, (4 <= i < length plain)%nat ->
    exists p k s,
      plain !! i = Some p /\
      key !! (i mod 64)%nat = Some k /\
      plain !! (i mod 4)%nat = Some s /\
      initialBytes (finalTimestamp f) !! (i mod 4)%nat = Some s /\
      encrypt plain !! i = Some (Z.lxor (Z.lxor p k) s).
Proof.
  intros Hplain.
  pose proof (plain_bytes _ _ Hplain) as Hbytes.
  pose proof (plain_prefix _ _ Hplain) as Hseed.
  split; [rewrite encrypt_prefix; exact Hseed |].
  intros i Hi.
  pose proof (Nat.mod_upper_bound i 4 ltac:(lia)) as H4.
  pose proof (Nat.mod_upper_bound i 64 ltac:(lia)) as H64.
  destruct (lookup_lt_is_Some_2 plain i ltac:(lia)) as [p Hp].
  destruct (lookup_lt_is_Some_2 key (i mod 64) H64) as [k Hk].
  destruct (lookup_lt_is_Some_2 plain (i mod 4) ltac:(lia)) as [s Hs].
  exists p, k, s. repeat split; try assumption.
  - rewrite <- Hseed, lookup_take_lt by exact H4. exact Hs.
  - rewrite encrypt_lookup_high by exact Hi. f_equal.
    unfold cell, read. change keylen with 64%nat. rewrite Hp, Hk, Hs.
    apply xor_bytes.
    + exact (proj1 (Forall_lookup _ _) Hbytes _ _ Hp).
    + exact (proj1 (Forall_lookup _ _) key_bytes _ _ Hk).
    + exact (proj1 (Forall_lookup _ _) Hbytes _ _ Hs).
Qed.

Lemma cipher_stage_bytes_witness :
  take 4 (encrypt sample_plain) = [0; 0; 19; 19] /\
  encrypt sample_plain !! 4%nat = Some (Z.lxor (Z.lxor 119 63) 0).
Proof.
  destruct (cipher_stage_bytes sample_final sample_plain eq_refl) as [Hseed Hcell].
  split; [exact Hseed |].
  destruct (Hcell 4%nat ltac:(vm_compute; lia)) as (p & k & s & Hp & Hk & Hs & _ & Hc).
  vm_compute in Hp, Hk, Hs.
  injection Hp as <-. injection Hk as <-. injection Hs as <-.
  exact Hc.
Defined.

(** ** The payload *)

Lemma dataString_join f : dataString f = join (lit "|") (fields f).
Proof. reflexivity. Qed.

(** C8: two resolved inputs with the same timestamp, whatever their
    other fields, have plaintext buffers with the same first four bytes:
    the seed depends on the timestamp alone. *)
Theorem seed_isolation (f1 f2 : Final) (plain1 plain2 : list Z) :
  finalTimestamp f1 = finalTimestamp f2 ->
  combinedData f1 = Return plain1 ->
  combinedData f2 = Return plain2 ->
  take 4 plain1 = take 4 plain2.
Proof.
  intros Hts H1 H2.
  rewrite (plain_prefix _ _ H1), (plain_prefix _ _ H2), Hts. reflexivity.
Qed.

Lemma seed_isolation_witness : take 4 sample_plain = take 4 sample_plain_cookie.
Proof.
  apply (seed_isolation sample_final sample_final_cookie);
    vm_compute; reflexivity.
Defined.

(** ** Resolution of the inputs *)

Lemma client_None env :
  clientData env = None ->
  client env = {| fingerprint := None; clientDeviceModel := None; clientOs := None |}.
Proof. unfold client. intros ->. reflexivity. Qed.

(** C4, as the code has it: line 58 always puts [web-fingerprint-] in
    front of the identifier it chose, so the payload of the scenario is
    obtained from the caller's identifier [test]; then, without client
    data and outside development mode, the plaintext buffer is the seed
    0, 0, 19, 19 followed by the UTF-8 bytes (here the ASCII codes) of
    [web-fingerprint-test|sn-1|0|model-1|linux|Web|3|false]. *)
Theorem scenario_plaintext (env : Env) :
  clientData env = None ->
  NODE_ENV env <> Some (lit "development") ->
  let f := resolve env (Some (lit "test")) (Some (lit "sn-1")) (Some (lit "0"))
             (Some (lit "model-1")) (Some (lit "linux")) in
  finalDeviceIdentifier f = lit "web-fingerprint-test" /\
  finalTimestamp f = Int 0 /\
  isDevelopment f = false /\
  combinedData f =
    Return (initialBytes (Int 0)
              ++ TextEncoder_encode
                   (lit "web-fingerprint-test|sn-1|0|model-1|linux|Web|3|false")) /\
  combinedData f = Return sample_plain.
Proof.
  intros Hcd Hdev f.
  assert (Hf : f = sample_final).
  { unfold f, sample_final, resolve, resolveDeviceIdentifier.
    rewrite (client_None env Hcd), (client_None sample_env eq_refl).
    rewrite (bool_decide_eq_false_2 _ Hdev).
    reflexivity. }
  rewrite Hf. repeat split; vm_compute; reflexivity.
Qed.

Lemma scenario_plaintext_witness :
  combinedData sample_final = Return sample_plain.
Proof.
  apply (scenario_plaintext sample_env); [reflexivity | vm_compute; discriminate].
Defined.

(** C4 as stated fails: with the caller's identifier
    [web-fingerprint-test] the prefix is added once more and the payload
    starts [web-fingerprint-web-fingerprint-test|]. *)
Lemma scenario_identifier_prefixed_twice :
  dataString
    (resolve sample_env (Some (lit "web-fingerprint-test"))
       (Some (lit "sn-1")) (Some (lit "0"))
       (Some (lit "model-1")) (Some (lit "linux"))) =
    lit "web-fingerprint-web-fingerprint-test|sn-1|0|model-1|linux|Web|3|false" /\
  combinedData
    (resolve sample_env (Some (lit "web-fingerprint-test"))
       (Some (lit "sn-1")) (Some (lit "0"))
       (Some (lit "model-1")) (Some (lit "linux"))) <>
    Return (initialBytes (Int 0)
              ++ TextEncoder_encode
                   (lit "web-fingerprint-test|sn-1|0|model-1|linux|Web|3|false")).
Proof.
  split; [vm_compute; reflexivity |].
  vm_compute. discriminate.
Qed.

(** C10: the device-identifier field of the payload always starts with
    [web-fingerprint-].  With a (non-empty) fingerprint in the client data
    it is the prefix followed by the fingerprint, whatever the caller
    passed; without one it is the prefix followed by the caller's
    identifier, or by [fb9cd3a645fe5jim] when that is absent or empty. *)
Theorem device_identifier_field (env : Env)
    (deviceIdentifier sn timestamp deviceModel os : option jsstring) :
  let f := resolve env deviceIdentifier sn timestamp deviceModel os in
  take 16 (finalDeviceIdentifier f) = lit "web-fingerprint-" /\
  (exists rest, dataString f = finalDeviceIdentifier f ++ lit "|" ++ rest) /\
  (forall fp, fingerprint (client env) = Some fp -> fp <> [] ->
     finalDeviceIdentifier f = lit "web-fingerprint-" ++ fp) /\
  (truthy (fingerprint (client env)) = false ->
   forall d, deviceIdentifier = Some d -> d <> [] ->
     finalDeviceIdentifier f = lit "web-fingerprint-" ++ d) /\
  (truthy (fingerprint (client env)) = false ->
   truthy deviceIdentifier = false ->
     finalDeviceIdentifier f = lit "web-fingerprint-" ++ lit "fb9cd3a645fe5jim").
Proof.
  intros f. unfold f. cbn [finalDeviceIdentifier resolve].
  unfold resolveDeviceIdentifier.
  refine (conj _ (conj _ (conj _ (conj _ _)))).
  - rewrite take_app_length' by reflexivity. reflexivity.
  - eexists. unfold dataString. cbn [finalDeviceIdentifier resolve].
    unfold resolveDeviceIdentifier. reflexivity.
  - intros fp -> Hfp. destruct fp; [congruence | reflexivity].
  - intros Hno d -> Hd.
    destruct (fingerprint (client env)) as [[| c r] |]; try discriminate;
      (destruct d; [congruence | reflexivity]).
  - intros Hno Hd.
    destruct (fingerprint (client env)) as [[| c r] |]; try discriminate;
      (destruct deviceIdentifier as [[| c r] |]; try discriminate; reflexivity).
Qed.

Lemma device_identifier_field_witness :
  finalDeviceIdentifier sample_final_cookie = lit "web-fingerprint-abc123" /\
  finalDeviceIdentifier sample_final = lit "web-fingerprint-test" /\
  finalDeviceIdentifier (resolve sample_env None None None None None)
    = lit "web-fingerprint-fb9cd3a645fe5jim".
Proof.
  split; [| split].
  - destruct (device_identifier_field sample_env_cookie None None
                (Some (lit "0")) None None) as (_ & _ & H & _).
    apply (H (lit "abc123")); [reflexivity | discriminate].
  - destruct (device_identifier_field sample_env (Some (lit "test"))
                (Some (lit "sn-1")) (Some (lit "0")) (Some (lit "model-1"))
                (Some (lit "linux"))) as (_ & _ & _ & H & _).
    apply (H eq_refl (lit "test")); [reflexivity | discriminate].
  - destruct (device_identifier_field sample_env None None None None None)
      as (_ & _ & _ & _ & H).
    apply (H eq_refl eq_refl).
Defined.

(** C7: two invocations with the same five arguments return the same
    outcome, byte for byte, as soon as the surroundings agree on the
    client data, on whether the mode is development, and on the second
    count of the clock. *)
Theorem deterministic (env1 env2 : Env)
    (deviceIdentifier sn timestamp deviceModel os : option jsstring) :
  clientData env1 = clientData env2 ->
  (NODE_ENV env1 = Some (lit "development")
     <-> NODE_ENV env2 = Some (lit "development")) ->
  Date_now env1 / 1000 = Date_now env2 / 1000 ->
  getRAuthToken env1 deviceIdentifier sn timestamp deviceModel os =
  getRAuthToken env2 deviceIdentifier sn timestamp deviceModel os.
Proof.
  intros Hcd Hdev Hnow. unfold getRAuthToken. f_equal.
  unfold resolve, resolveDeviceIdentifier, resolveTimestamp, client.
  rewrite Hcd, Hnow, (bool_decide_ext _ _ Hdev). reflexivity.
Qed.

Lemma deterministic_witness :
  getRAuthToken sample_env None (Some (lit "sn-1")) None None None =
  getRAuthToken sample_env_later None (Some (lit "sn-1")) None None None.
Proof.
  apply deterministic.
  - reflexivity.
  - split; intros H; vm_compute in H; discriminate H.
  - reflexivity.
Defined.

(** ** Base64 *)

Lemma list_ind3 (P : list Z -> Prop) :
  P [] ->
  (forall a, P [a]) ->
  (forall a b, P [a; b]) ->
  (forall a b c rest, P rest -> P (a :: b :: c :: rest)) ->
  forall l, P l.
Proof.
  intros H0 H1 H2 H3.
  fix rec 1. intros l.
  destruct l as [| a [| b [| c rest]]].
  - exact H0.
  - apply H1.
  - apply H2.
  - apply H3. apply rec.
Qed.

Lemma base64_length l : length (base64 l) = ((length l + 2) / 3 * 4)%nat.
Proof.
  induction l as [| a | a b | a b c rest IH] using list_ind3;
    try reflexivity.
  cbn [base64 length]. rewrite IH.
  replace (S (S (S (length rest))) + 2)%nat
    with (length rest + 2 + 1 * 3)%nat by lia.
  rewrite Nat.div_add by lia. lia.
Qed.

(** [(n + 2) / 3] is the ceiling of [n / 3]. *)
Lemma ceil_third n : (n <= 3 * ((n + 2) / 3) < n + 3)%nat.
Proof.
  pose proof (Nat.div_mod_eq (n + 2) 3).
  pose proof (Nat.mod_upper_bound (n + 2) 3). lia.
Qed.

Lemma sextet_high z : sextet_range z <-> Z.shiftr z 6 = 0.
Proof.
  unfold sextet_range. rewrite Z.shiftr_div_pow2 by lia.
  pose proof (Z.div_mod z (2 ^ 6)).
  pose proof (Z.mod_pos_bound z (2 ^ 6)).
  lia.
Qed.

Lemma byte_shiftr_high b k : byte b -> 8 <= k -> Z.shiftr b k = 0.
Proof.
  unfold byte. intros Hb Hk. rewrite Z.shiftr_div_pow2 by lia.
  apply Z.div_small. split; [lia |].
  assert (2 ^ 8 <= 2 ^ k) by (apply Z.pow_le_mono_r; lia). lia.
Qed.

Lemma sextet_first a : byte a -> sextet_range (Z.shiftr a 2).
Proof.
  intros Ha. apply sextet_high. rewrite Z.shiftr_shiftr by lia.
  apply byte_shiftr_high; [exact Ha | lia].
Qed.

Lemma sextet_low_part a m k :
  0 <= k <= 6 -> Z.shiftr m (6 - k) = 0 ->
  Z.shiftr (Z.shiftl (Z.land a m) k) 6 = 0.
Proof.
  intros Hk Hm. rewrite Z.shiftr_shiftl_r by lia.
  rewrite Z.shiftr_land, Hm. apply Z.land_0_r.
Qed.

Lemma sextet_join a m k b :
  0 <= k <= 6 -> Z.shiftr m (6 - k) = 0 -> byte b ->
  sextet_range (Z.lor (Z.shiftl (Z.land a m) k) (Z.shiftr b (8 - k))).
Proof.
  intros Hk Hm Hb. apply sextet_high.
  rewrite Z.shiftr_lor, sextet_low_part by assumption.
  rewrite Z.shiftr_shiftr by lia.
  rewrite byte_shiftr_high; [reflexivity | exact Hb | lia].
Qed.

Lemma sextet_tail a m k :
  0 <= k <= 6 -> Z.shiftr m (6 - k) = 0 ->
  sextet_range (Z.shiftl (Z.land a m) k).
Proof. intros Hk Hm. apply sextet_high. apply sextet_low_part; assumption. Qed.

Lemma sextet_last c : sextet_range (Z.land c 63).
Proof.
  apply sextet_high. rewrite Z.shiftr_land. apply Z.land_0_r.
Qed.

(** Within its range a sextet is rendered by a character of the
    alphabet, never by the padding character. *)
Lemma sextet_not_pad i : sextet_range i -> sextet i <> pad.
Proof.
  unfold sextet_range. intros Hi.
  assert (Hall : forallb (fun n => negb (sextet (Z.of_nat n) =? pad))
                   (seq 0 64) = true) by (vm_compute; reflexivity).
  rewrite forallb_forall in Hall.
  specialize (Hall (Z.to_nat i)).
  rewrite Z2Nat.id in Hall by lia.
  intros Heq. rewrite Heq, Z.eqb_refl in Hall.
  assert (false = true) by (apply Hall; apply in_seq; lia).
  discriminate.
Qed.

Lemma padding_step n : padding (S (S (S n))) = padding n.
Proof.
  unfold padding.
  replace (S (S (S n))) with (n + 1 * 3)%nat by lia.
  rewrite Nat.Div0.mod_add. reflexivity.
Qed.

(** The text ends with [padding n] characters [=] and has none before. *)
Lemma base64_padding l :
  Forall byte l ->
  exists body,
    base64 l = body ++ replicate (padding (length l)) pad /\
    Forall (fun c => c <> pad) body.
Proof.
  induction l as [| a | a b | a b c rest IH] using list_ind3; intros Hl.
  - exists []. split; [reflexivity | constructor].
  - apply Forall_cons in Hl as [Ha _].
    eexists [_; _]. split; [reflexivity |].
    repeat constructor; apply sextet_not_pad.
    + apply sextet_first, Ha.
    + apply (sextet_tail a 3 4); [lia | reflexivity].
  - apply Forall_cons in Hl as [Ha Hl]. apply Forall_cons in Hl as [Hb _].
    eexists [_; _; _]. split; [reflexivity |].
    repeat constructor; apply sextet_not_pad.
    + apply sextet_first, Ha.
    + apply (sextet_join a 3 4 b); [lia | reflexivity | exact Hb].
    + apply (sextet_tail b 15 2); [lia | reflexivity].
  - apply Forall_cons in Hl as [Ha Hl]. apply Forall_cons in Hl as [Hb Hl].
    apply Forall_cons in Hl as [Hc Hl].
    destruct (IH Hl) as (body & Hbody & Hfree).
    exists (sextet (Z.shiftr a 2)
            :: sextet (Z.lor (Z.shiftl (Z.land a 3) 4) (Z.shiftr b 4))
            :: sextet (Z.lor (Z.shiftl (Z.land b 15) 2) (Z.shiftr c 6))
            :: sextet (Z.land c 63) :: body).
    split.
    + cbn [base64 length]. rewrite Hbody, padding_step. reflexivity.
    + repeat (apply Forall_cons; split); try exact Hfree;
        apply sextet_not_pad.
      * apply sextet_first, Ha.
      * apply (sextet_join a 3 4 b); [lia | reflexivity | exact Hb].
      * apply (sextet_join b 15 2 c); [lia | reflexivity | exact Hc].
      * apply sextet_last.
Qed.

(** ** The whole function returns *)

Lemma String_fromCharCode_bytes l : Forall byte l -> String_fromCharCode l = l.
Proof.
  unfold String_fromCharCode. intros Hl.
  induction Hl as [| b l Hb _ IH]; [reflexivity |].
  cbn [map]. rewrite IH. f_equal.
  unfold byte in Hb. apply Z.mod_small. lia.
Qed.

Lemma btoa_bytes l : Forall byte l -> btoa l = Return (base64 l).
Proof.
  intros Hl. unfold btoa.
  assert (Hok : forallb (fun c => (0 <=? c) && (c <=? 255)) l = true).
  { induction Hl as [| b l Hb _ IH]; [reflexivity |].
    cbn [forallb]. rewrite IH. unfold byte in Hb.
    rewrite andb_true_r. apply andb_true_intro. split; apply Z.leb_le; lia. }
  rewrite Hok. reflexivity.
Qed.

Lemma encodeFinal_eq f :
  encodeFinal f =
    Return (base64 (encrypt (initialBytes (finalTimestamp f)
                               ++ TextEncoder_encode (dataString f)))).
Proof.
  unfold encodeFinal. rewrite combinedData_eq. cbn [mbind result_bind].
  assert (Hb : Forall byte (encrypt (initialBytes (finalTimestamp f)
                                       ++ TextEncoder_encode (dataString f)))).
  { apply encrypt_bytes, (plain_bytes f), combinedData_eq. }
  rewrite (String_fromCharCode_bytes _ Hb). apply btoa_bytes, Hb.
Qed.

(** C9: for every call the token exists and its length is four times the
    ceiling of a third of [4 + n], where [n] is the byte length of the
    UTF-8 field string; it ends with the [=] of standard base64 (none,
    one or two, by the length modulo 3) and has no [=] before them. *)
Theorem token_length (env : Env)
    (deviceIdentifier sn timestamp deviceModel os : option jsstring) :
  let f := resolve env deviceIdentifier sn timestamp deviceModel os in
  let n := length (TextEncoder_encode (dataString f)) in
  exists token,
    getRAuthToken env deviceIdentifier sn timestamp deviceModel os = Return token /\
    length token = ((4 + n + 2) / 3 * 4)%nat /\
    (4 + n <= 3 * ((4 + n + 2) / 3) < 4 + n + 3)%nat /\
    exists body,
      token = body ++ replicate (padding (4 + n)) pad /\
      Forall (fun c => c <> pad) body.
Proof.
  intros f n. unfold getRAuthToken. fold f. rewrite encodeFinal_eq.
  eexists. split; [reflexivity |].
  set (plain := initialBytes (finalTimestamp f) ++ TextEncoder_encode (dataString f)).
  assert (Hlen : length (encrypt plain) = (4 + n)%nat).
  { rewrite encrypt_length. unfold plain.
    rewrite length_app, initialBytes_length. reflexivity. }
  assert (Hb : Forall byte (encrypt plain)).
  { apply encrypt_bytes, (plain_bytes f), combinedData_eq. }
  split; [rewrite base64_length, Hlen; reflexivity |].
  split; [apply ceil_third |].
  rewrite <- Hlen. apply base64_padding, Hb.
Qed.

(** ** The timestamp *)

(** C3 as stated fails: the timestamp [abc] does not parse, and the code
    neither substitutes the clock nor fails; the timestamp is NaN and the
    payload carries the text [NaN]. *)
Lemma unparsable_timestamp_is_NaN :
  parseInt10 (lit "abc") = NaN /\
  finalTimestamp (resolve sample_env None None (Some (lit "abc")) None None)
    <> Int (Date_now sample_env / 1000) /\
  dataString (resolve sample_env None None (Some (lit "abc")) None None) =
    lit "web-fingerprint-fb9cd3a645fe5jim|sn-85845426|NaN|device_model-65656565|windows|Web|3|false".
Proof.
  split; [reflexivity |]. split; [vm_compute; discriminate |].
  vm_compute. reflexivity.
Qed.

(** C3, as the code has it: an absent or empty timestamp is replaced by
    the second count of the clock; a non-empty one is handed to
    [parseInt], and when that finds no number the timestamp is NaN, the
    seed is the seed of 0 and the field string carries [NaN]; in every
    case the call returns a token and raises nothing. *)
Theorem timestamp_resolution (env : Env)
    (deviceIdentifier sn timestamp deviceModel os : option jsstring) :
  let f := resolve env deviceIdentifier sn timestamp deviceModel os in
  (truthy timestamp = false -> finalTimestamp f = Int (Date_now env / 1000)) /\
  (forall s, timestamp = Some s -> s <> [] -> finalTimestamp f = parseInt10 s) /\
  (forall s, timestamp = Some s -> s <> [] -> parseInt10 s = NaN ->
     finalTimestamp f = NaN /\
     initialBytes (finalTimestamp f) = [0; 0; 19; 19] /\
     Number_toString (finalTimestamp f) = lit "NaN") /\
  exists token,
    getRAuthToken env deviceIdentifier sn timestamp deviceModel os = Return token.
Proof.
  intros f. unfold f. cbn [finalTimestamp resolve].
  assert (Hparse : forall s, timestamp = Some s -> s <> [] ->
            resolveTimestamp env timestamp = parseInt10 s).
  { intros s -> Hs. destruct s; [congruence | reflexivity]. }
  refine (conj _ (conj Hparse (conj _ _))).
  - destruct timestamp as [[| c r] |]; try discriminate; reflexivity.
  - intros s Hts Hs Hnan. rewrite (Hparse s Hts Hs), Hnan.
    repeat split; vm_compute; reflexivity.
  - unfold getRAuthToken. rewrite encodeFinal_eq. eexists. reflexivity.
Qed.

Lemma timestamp_resolution_witness :
  finalTimestamp (resolve sample_env None None None None None) = Int 1700000000 /\
  finalTimestamp (resolve sample_env None None (Some []) None None) = Int 1700000000 /\
  finalTimestamp (resolve sample_env None None (Some (lit "abc")) None None) = NaN /\
  finalTimestamp (resolve sample_env None None (Some (lit "12abc")) None None) = Int 12.
Proof.
  refine (conj _ (conj _ (conj _ _))).
  - destruct (timestamp_resolution sample_env None None None None None)
      as (H & _).
    apply (H eq_refl).
  - destruct (timestamp_resolution sample_env None None (Some []) None None)
      as (H & _).
    apply (H eq_refl).
  - destruct (timestamp_resolution sample_env None None (Some (lit "abc")) None None)
      as (_ & _ & H & _).
    apply (H (lit "abc")); [reflexivity | discriminate | reflexivity].
  - destruct (timestamp_resolution sample_env None None (Some (lit "12abc")) None None)
      as (_ & H & _).
    apply (H (lit "12abc")); [reflexivity | discriminate].
Defined.

(** * Further properties of [getRAuthToken] *)

(** ** The shape of the seed *)

Lemma random_of_Int t : exists z, random_of t = Int z.
Proof.
  unfold random_of. destruct (mix_int32 t) as (r & -> & Hr).
  eexists. apply scale_int32, Hr.
Qed.

Lemma extract_bytes t :
  exists b0 b1 b2 b3,
    extract (random_of t) = (Int b0, Int b1, Int b2, Int b3) /\
    byte b0 /\ byte b1 /\ byte b2 /\ byte b3.
Proof.
  destruct (random_of_Int t) as (z & Hz).
  rewrite (extract_wrapped _ z Hz). unfold Wrapped32.bytes_of.
  do 4 eexists. split; [reflexivity |].
  repeat split; apply byte_land_mask; byte_const.
Qed.

Lemma bit_xor_bytes a b :
  byte a -> byte b -> bit_xor (Int a) (Int b) = Int (Z.lxor a b).
Proof.
  intros Ha Hb. unfold bit_xor. cbn [ToInt32].
  rewrite !wrap32_id by (apply byte_int32; assumption). reflexivity.
Qed.

(** The seed in terms of the four bytes of [random]. *)
Lemma seed_shape t :
  exists b0 b1 b2 b3,
    byte b0 /\ byte b1 /\ byte b2 /\ byte b3 /\
    initialBytes t =
      [Z.lxor b0 b1; Z.lxor b1 b2; Z.lxor b2 b3; Z.lxor b3 b0].
Proof.
  destruct (extract_bytes t) as (b0 & b1 & b2 & b3 & He & H0 & H1 & H2 & H3).
  exists b0, b1, b2, b3. do 4 (split; [assumption |]).
  unfold initialBytes. rewrite He. unfold chain.
  rewrite !bit_xor_bytes by assumption.
  rewrite !ToUint8_id by (apply byte_lxor; assumption).
  reflexivity.
Qed.

Lemma lxor_chain_zero a b c d :
  Z.lxor (Z.lxor (Z.lxor (Z.lxor a b) (Z.lxor b c)) (Z.lxor c d)) (Z.lxor d a) = 0.
Proof.
  apply Z.bits_inj'. intros n _.
  rewrite !Z.lxor_spec, Z.bits_0.
  destruct (Z.testbit a n), (Z.testbit b n), (Z.testbit c n), (Z.testbit d n);
    reflexivity.
Qed.

(** X1: whatever the timestamp, the four seed bytes xor to zero: the
    chained XOR of lines 86-91 makes the fourth byte the xor of the other
    three, so a seed never carries more than three independent bytes. *)
Theorem seed_bytes_xor_to_zero (finalTimestamp : Number) :
  exists s0 s1 s2 s3,
    initialBytes finalTimestamp = [s0; s1; s2; s3] /\
    Z.lxor (Z.lxor (Z.lxor s0 s1) s2) s3 = 0 /\
    s3 = Z.lxor (Z.lxor s0 s1) s2.
Proof.
  destruct (seed_shape finalTimestamp) as (b0 & b1 & b2 & b3 & _ & _ & _ & _ & ->).
  do 4 eexists. split; [reflexivity |].
  assert (H : Z.lxor (Z.lxor (Z.lxor (Z.lxor b0 b1) (Z.lxor b1 b2)) (Z.lxor b2 b3))
                (Z.lxor b3 b0) = 0) by apply lxor_chain_zero.
  split; [exact H |].
  apply Z.lxor_eq in H. symmetry. exact H.
Qed.

Lemma mix_ToInt32 n m : ToInt32 n = ToInt32 m -> mix n = mix m.
Proof.
  intros H. unfold mix, bit_xor, shl. rewrite H. reflexivity.
Qed.

Lemma wrap32_period t k : wrap32 (t + k * 2 ^ 32) = wrap32 t.
Proof.
  apply wrap32_eq. apply Z_mod_plus_full.
Qed.

(** X2: the seed depends on the timestamp through its signed 32-bit value
    only: two timestamps that differ by a multiple of 2^32 have the same
    seed, and a timestamp that is NaN has the seed of 0. *)
Theorem seed_period (t k : Z) :
  initialBytes (Int (t + k * 2 ^ 32)) = initialBytes (Int t) /\
  initialBytes NaN = initialBytes (Int (k * 2 ^ 32)).
Proof.
  unfold initialBytes, random_of. split.
  - rewrite (mix_ToInt32 (Int (t + k * 2 ^ 32)) (Int t)); [reflexivity |].
    apply wrap32_period.
  - rewrite (mix_ToInt32 NaN (Int (k * 2 ^ 32))); [reflexivity |].
    cbn [ToInt32]. symmetry. apply (wrap32_period 0 k).
Qed.

(** ** The cipher is its own inverse and acts byte by byte *)

Lemma lxor_undo p k s : Z.lxor (Z.lxor (Z.lxor (Z.lxor p k) s) k) s = p.
Proof.
  apply Z.bits_inj'. intros n _.
  rewrite !Z.lxor_spec.
  destruct (Z.testbit p n), (Z.testbit k n), (Z.testbit s n); reflexivity.
Qed.

Lemma read_Some a i b : a !! i = Some b -> read a i = Int b.
Proof. unfold read. intros ->. reflexivity. Qed.

(** The stored cell of line 125 as a plain XOR of the three bytes read. *)
Lemma cell_bytes buf j p k s :
  Forall byte buf ->
  buf !! j = Some p -> key !! (j mod 64)%nat = Some k ->
  buf !! (j mod 4)%nat = Some s ->
  cell buf j = Z.lxor (Z.lxor p k) s /\ byte p /\ byte k /\ byte s.
Proof.
  intros Hb Hp Hk Hs.
  pose proof (proj1 (Forall_lookup _ _) Hb _ _ Hp) as Bp.
  pose proof (proj1 (Forall_lookup _ _) key_bytes _ _ Hk) as Bk.
  pose proof (proj1 (Forall_lookup _ _) Hb _ _ Hs) as Bs.
  refine (conj _ (conj Bp (conj Bk Bs))).
  unfold cell. change keylen with 64%nat.
  rewrite (read_Some _ _ _ Hp), (read_Some _ _ _ Hk), (read_Some _ _ _ Hs).
  apply xor_bytes; assumption.
Qed.

Lemma encrypt_twice (buf : list Z) :
  Forall byte buf -> encrypt (encrypt buf) = buf.
Proof.
  intros Hb. apply list_eq. intros j.
  destruct (le_lt_dec 4 j) as [H4 | H4]; [| rewrite !encrypt_lookup_low by lia; reflexivity].
  destruct (le_lt_dec (length buf) j) as [Hlen | Hlen].
  - rewrite (lookup_ge_None_2 buf j Hlen).
    apply lookup_ge_None_2. rewrite !encrypt_length. exact Hlen.
  - pose proof (Nat.mod_upper_bound j 4 ltac:(lia)) as M4.
    pose proof (Nat.mod_upper_bound j 64 ltac:(lia)) as M64.
    destruct (lookup_lt_is_Some_2 buf j Hlen) as [p Hp].
    destruct (lookup_lt_is_Some_2 key (j mod 64) M64) as [k Hk].
    destruct (lookup_lt_is_Some_2 buf (j mod 4) ltac:(lia)) as [s Hs].
    destruct (cell_bytes buf j p k s Hb Hp Hk Hs) as (Hc & Bp & Bk & Bs).
    rewrite encrypt_lookup_high by (rewrite encrypt_length; lia).
    rewrite Hp. f_equal.
    assert (He : encrypt buf !! j = Some (Z.lxor (Z.lxor p k) s)).
    { rewrite encrypt_lookup_high by lia. rewrite Hc. reflexivity. }
    assert (Hes : encrypt buf !! (j mod 4)%nat = Some s).
    { rewrite encrypt_lookup_low by exact M4. exact Hs. }
    destruct (cell_bytes (encrypt buf) j _ k s (encrypt_bytes buf Hb) He Hk Hes)
      as (-> & _).
    apply lxor_undo.
Qed.

(** X3: on a buffer of bytes the cipher loop is an involution: running
    lines 124-126 on its own output gives the plaintext back, which is how
    a receiver decodes; the output is again a buffer of bytes, of the
    same length. *)
Theorem encrypt_involutive (buf : list Z) :
  Forall byte buf ->
  encrypt (encrypt buf) = buf /\
  Forall byte (encrypt buf) /\
  length (encrypt buf) = length buf.
Proof.
  intros Hb. split; [apply encrypt_twice, Hb |].
  split; [apply encrypt_bytes, Hb | apply encrypt_length].
Qed.

(** A boolean test for a buffer of bytes. *)
Lemma Forall_byte_check l :
  forallb (fun c => (0 <=? c) && (c <? 256)) l = true -> Forall byte l.
Proof.
  induction l as [| c l IH]; cbn [forallb]; intros H; [constructor |].
  apply andb_prop in H as [Hc Hl].
  apply andb_prop in Hc as [H0 H1].
  constructor; [| apply IH, Hl].
  unfold byte. apply Z.leb_le in H0. apply Z.ltb_lt in H1. lia.
Qed.

Lemma encrypt_involutive_witness : encrypt (encrypt sample_plain) = sample_plain.
Proof.
  apply encrypt_involutive. apply Forall_byte_check. vm_compute. reflexivity.
Defined.

Lemma take4_lookup (b1 b2 : list Z) i :
  take 4 b1 = take 4 b2 -> (i < 4)%nat -> b1 !! i = b2 !! i.
Proof.
  intros H Hi.
  rewrite <- (lookup_take_lt b1 4 i Hi), <- (lookup_take_lt b2 4 i Hi), H.
  reflexivity.
Qed.

Lemma encrypt_lookup_ge buf j :
  (4 <= j)%nat -> encrypt buf !! j = (fun _ => cell buf j) <$> buf !! j.
Proof.
  intros Hj. destruct (le_lt_dec (length buf) j) as [Hlen | Hlen].
  - rewrite (lookup_ge_None_2 buf j Hlen).
    apply lookup_ge_None_2. rewrite encrypt_length. exact Hlen.
  - rewrite encrypt_lookup_high by lia.
    destruct (lookup_lt_is_Some_2 buf j Hlen) as [p ->]. reflexivity.
Qed.

(** X4: the cipher acts position by position.  For two buffers of bytes
    with the same first four bytes, the outputs agree at an index exactly
    when the inputs agree there: a changed plaintext byte changes the
    ciphertext at its own index and nowhere else. *)
Theorem cipher_byte_by_byte (b1 b2 : list Z) (j : nat) :
  Forall byte b1 -> Forall byte b2 ->
  take 4 b1 = take 4 b2 ->
  (encrypt b1 !! j = encrypt b2 !! j <-> b1 !! j = b2 !! j).
Proof.
  intros B1 B2 Hseed.
  destruct (le_lt_dec 4 j) as [H4 | H4];
    [| rewrite !encrypt_lookup_low by lia; reflexivity].
  rewrite !encrypt_lookup_ge by exact H4.
  pose proof (Nat.mod_upper_bound j 4 ltac:(lia)) as M4.
  pose proof (Nat.mod_upper_bound j 64 ltac:(lia)) as M64.
  destruct (lookup_lt_is_Some_2 key (j mod 64) M64) as [k Hk].
  destruct (b1 !! j) as [p1 |] eqn:Hp1, (b2 !! j) as [p2 |] eqn:Hp2;
    cbn [fmap option_fmap option_map]; try (split; intros; congruence).
  pose proof (lookup_lt_Some _ _ _ Hp1) as L1.
  destruct (lookup_lt_is_Some_2 b1 (j mod 4) ltac:(lia)) as [s Hs1].
  assert (Hs2 : b2 !! (j mod 4)%nat = Some s)
    by (rewrite <- (take4_lookup b1 b2 _ Hseed M4); exact Hs1).
  destruct (cell_bytes b1 j p1 k s B1 Hp1 Hk Hs1) as (-> & _).
  destruct (cell_bytes b2 j p2 k s B2 Hp2 Hk Hs2) as (-> & _).
  split; intros H.
  - f_equal. apply Some_inj in H.
    rewrite <- (lxor_undo p1 k s), H. apply lxor_undo.
  - congruence.
Qed.

Lemma cipher_byte_by_byte_witness :
  encrypt sample_plain !! 10%nat = encrypt sample_plain_edit !! 10%nat /\
  encrypt sample_plain !! 20%nat <> encrypt sample_plain_edit !! 20%nat.
Proof.
  assert (B1 : Forall byte sample_plain)
    by (apply Forall_byte_check; vm_compute; reflexivity).
  assert (B2 : Forall byte sample_plain_edit)
    by (apply Forall_byte_check; vm_compute; reflexivity).
  split.
  - apply (cipher_byte_by_byte sample_plain sample_plain_edit 10 B1 B2);
      reflexivity.
  - intros H.
    apply (cipher_byte_by_byte sample_plain sample_plain_edit 20 B1 B2) in H;
      [| reflexivity].
    vm_compute in H. discriminate H.
Defined.

(** ** The token as text *)

Lemma sextet_in_alphabet i : sextet_range i -> sextet i ∈ alphabet.
Proof.
  unfold sextet_range, sextet. intros Hi.
  destruct (alphabet !! Z.to_nat i) as [c |] eqn:Hc; cbn [default].
  - apply (list_elem_of_lookup_2 _ _ _ Hc).
  - apply lookup_ge_None_1 in Hc.
    change (length alphabet) with 64%nat in Hc. lia.
Qed.

Lemma sextet_i1 a b :
  byte b -> sextet_range (Z.lor (Z.shiftl (Z.land a 3) 4) (Z.shiftr b 4)).
Proof. intros Hb. apply (sextet_join a 3 4 b); [lia | reflexivity | exact Hb]. Qed.

Lemma sextet_i2 b c :
  byte c -> sextet_range (Z.lor (Z.shiftl (Z.land b 15) 2) (Z.shiftr c 6)).
Proof. intros Hc. apply (sextet_join b 15 2 c); [lia | reflexivity | exact Hc]. Qed.

Lemma sextet_t1 a : sextet_range (Z.shiftl (Z.land a 3) 4).
Proof. apply (sextet_tail a 3 4); [lia | reflexivity]. Qed.

Lemma sextet_t2 b : sextet_range (Z.shiftl (Z.land b 15) 2).
Proof. apply (sextet_tail b 15 2); [lia | reflexivity]. Qed.

Lemma base64_text_safe l : Forall byte l -> Forall text_safe (base64 l).
Proof.
  assert (Hs : forall i, sextet_range i -> text_safe (sextet i))
    by (intros i Hi; left; apply sextet_in_alphabet, Hi).
  assert (Hp : text_safe pad) by (right; reflexivity).
  induction l as [| a | a b | a b c rest IH] using list_ind3; intros Hl.
  - cbn [base64]. apply Forall_nil. exact I.
  - apply Forall_cons in Hl as [Ha _]. cbn [base64].
    apply Forall_cons; split; [apply Hs, sextet_first, Ha |].
    apply Forall_cons; split; [apply Hs, sextet_t1 |].
    apply Forall_cons; split; [exact Hp |].
    apply Forall_cons; split; [exact Hp | apply Forall_nil; exact I].
  - apply Forall_cons in Hl as [Ha Hl]. apply Forall_cons in Hl as [Hb _].
    cbn [base64].
    apply Forall_cons; split; [apply Hs, sextet_first, Ha |].
    apply Forall_cons; split; [apply Hs, sextet_i1, Hb |].
    apply Forall_cons; split; [apply Hs, sextet_t2 |].
    apply Forall_cons; split; [exact Hp | apply Forall_nil; exact I].
  - apply Forall_cons in Hl as [Ha Hl]. apply Forall_cons in Hl as [Hb Hl].
    apply Forall_cons in Hl as [Hc Hl]. cbn [base64].
    apply Forall_cons; split; [apply Hs, sextet_first, Ha |].
    apply Forall_cons; split; [apply Hs, sextet_i1, Hb |].
    apply Forall_cons; split; [apply Hs, sextet_i2, Hc |].
    apply Forall_cons; split; [apply Hs, sextet_last | exact (IH Hl)].
Qed.

(** ** Base64 loses nothing *)

Lemma land_shiftl_disjoint u v k :
  0 <= k -> 0 <= v < 2 ^ k -> Z.land (Z.shiftl u k) v = 0.
Proof.
  intros Hk Hv. apply Z.bits_inj'. intros n Hn.
  rewrite Z.land_spec, Z.bits_0.
  destruct (Z.lt_ge_cases n k) as [Hlt | Hge].
  - rewrite Z.shiftl_spec_low by exact Hlt. reflexivity.
  - rewrite <- (Z.mod_small v (2 ^ k)) by exact Hv.
    rewrite Z.mod_pow2_bits_high by lia. apply andb_false_r.
Qed.

Lemma lor_shiftl_add u v k :
  0 <= k -> 0 <= v < 2 ^ k -> Z.lor (Z.shiftl u k) v = u * 2 ^ k + v.
Proof.
  intros Hk Hv.
  pose proof (Z.add_lor_land (Z.shiftl u k) v) as H.
  rewrite land_shiftl_disjoint, Z.add_0_r in H by assumption.
  rewrite H, Z.shiftl_mul_pow2 by exact Hk. reflexivity.
Qed.

Lemma land_mod4 a : Z.land a 3 = a mod 4.
Proof. change 3 with (Z.ones 2). rewrite Z.land_ones by lia. reflexivity. Qed.

Lemma land_mod16 a : Z.land a 15 = a mod 16.
Proof. change 15 with (Z.ones 4). rewrite Z.land_ones by lia. reflexivity. Qed.

Lemma land_mod64 a : Z.land a 63 = a mod 64.
Proof. change 63 with (Z.ones 6). rewrite Z.land_ones by lia. reflexivity. Qed.

(** The four indices of a group as arithmetic on its three bytes. *)
Lemma index0_arith a : Z.shiftr a 2 = a / 4.
Proof. rewrite Z.shiftr_div_pow2 by lia. reflexivity. Qed.

Lemma index1_arith a b :
  byte b ->
  Z.lor (Z.shiftl (Z.land a 3) 4) (Z.shiftr b 4) = a mod 4 * 16 + b / 16.
Proof.
  unfold byte. intros Hb.
  rewrite Z.shiftr_div_pow2 by lia.
  rewrite lor_shiftl_add, land_mod4; [reflexivity | lia |].
  change (2 ^ 4) with 16. split; [apply Z.div_pos; lia |].
  apply Z.div_lt_upper_bound; lia.
Qed.

Lemma index2_arith b c :
  byte c ->
  Z.lor (Z.shiftl (Z.land b 15) 2) (Z.shiftr c 6) = b mod 16 * 4 + c / 64.
Proof.
  unfold byte. intros Hc.
  rewrite Z.shiftr_div_pow2 by lia.
  rewrite lor_shiftl_add, land_mod16; [reflexivity | lia |].
  change (2 ^ 6) with 64. change (2 ^ 2) with 4.
  split; [apply Z.div_pos; lia |].
  apply Z.div_lt_upper_bound; lia.
Qed.

Lemma tail1_arith a : Z.shiftl (Z.land a 3) 4 = a mod 4 * 16.
Proof. rewrite Z.shiftl_mul_pow2, land_mod4 by lia. reflexivity. Qed.

Lemma tail2_arith b : Z.shiftl (Z.land b 15) 2 = b mod 16 * 4.
Proof. rewrite Z.shiftl_mul_pow2, land_mod16 by lia. reflexivity. Qed.

(** Distinct indices are rendered by distinct characters. *)
Lemma sextet_inj i j :
  sextet_range i -> sextet_range j -> sextet i = sextet j -> i = j.
Proof.
  unfold sextet_range. intros Hi Hj Heq.
  assert (Hall : forallb (fun n => forallb (fun m =>
             implb (sextet (Z.of_nat n) =? sextet (Z.of_nat m)) (n =? m)%nat)
             (seq 0 64)) (seq 0 64) = true) by (vm_compute; reflexivity).
  rewrite forallb_forall in Hall.
  specialize (Hall (Z.to_nat i) ltac:(apply in_seq; lia)).
  rewrite forallb_forall in Hall.
  specialize (Hall (Z.to_nat j) ltac:(apply in_seq; lia)).
  rewrite !Z2Nat.id in Hall by lia.
  rewrite Heq, Z.eqb_refl in Hall. cbn [implb] in Hall.
  apply Nat.eqb_eq in Hall. lia.
Qed.

Lemma cons_eq_inv {A : Type} (x y : A) (l k : list A) :
  x :: l = y :: k -> x = y /\ l = k.
Proof. intros H. split; congruence. Qed.

Lemma group1_inj a a' :
  byte a -> byte a' ->
  sextet (Z.shiftr a 2) = sextet (Z.shiftr a' 2) ->
  sextet (Z.shiftl (Z.land a 3) 4) = sextet (Z.shiftl (Z.land a' 3) 4) ->
  a = a'.
Proof.
  intros Ha Ha' H0 H1.
  apply sextet_inj in H0; [| apply sextet_first; assumption ..].
  apply sextet_inj in H1; [| apply sextet_t1 ..].
  rewrite !index0_arith in H0. rewrite !tail1_arith in H1.
  unfold byte in *. Z.div_mod_to_equations. lia.
Qed.

Lemma group2_inj a b a' b' :
  byte a -> byte b -> byte a' -> byte b' ->
  sextet (Z.shiftr a 2) = sextet (Z.shiftr a' 2) ->
  sextet (Z.lor (Z.shiftl (Z.land a 3) 4) (Z.shiftr b 4)) =
    sextet (Z.lor (Z.shiftl (Z.land a' 3) 4) (Z.shiftr b' 4)) ->
  sextet (Z.shiftl (Z.land b 15) 2) = sextet (Z.shiftl (Z.land b' 15) 2) ->
  a = a' /\ b = b'.
Proof.
  intros Ha Hb Ha' Hb' H0 H1 H2.
  apply sextet_inj in H0; [| apply sextet_first; assumption ..].
  apply sextet_inj in H1; [| apply sextet_i1; assumption ..].
  apply sextet_inj in H2; [| apply sextet_t2 ..].
  rewrite !index0_arith in H0. rewrite !index1_arith in H1 by assumption.
  rewrite !tail2_arith in H2.
  unfold byte in *. Z.div_mod_to_equations. lia.
Qed.

Lemma group3_inj a b c a' b' c' :
  byte a -> byte b -> byte c -> byte a' -> byte b' -> byte c' ->
  sextet (Z.shiftr a 2) = sextet (Z.shiftr a' 2) ->
  sextet (Z.lor (Z.shiftl (Z.land a 3) 4) (Z.shiftr b 4)) =
    sextet (Z.lor (Z.shiftl (Z.land a' 3) 4) (Z.shiftr b' 4)) ->
  sextet (Z.lor (Z.shiftl (Z.land b 15) 2) (Z.shiftr c 6)) =
    sextet (Z.lor (Z.shiftl (Z.land b' 15) 2) (Z.shiftr c' 6)) ->
  sextet (Z.land c 63) = sextet (Z.land c' 63) ->
  a = a' /\ b = b' /\ c = c'.
Proof.
  intros Ha Hb Hc Ha' Hb' Hc' H0 H1 H2 H3.
  apply sextet_inj in H0; [| apply sextet_first; assumption ..].
  apply sextet_inj in H1; [| apply sextet_i1; assumption ..].
  apply sextet_inj in H2; [| apply sextet_i2; assumption ..].
  apply sextet_inj in H3; [| apply sextet_last ..].
  rewrite !index0_arith in H0. rewrite !index1_arith in H1 by assumption.
  rewrite !index2_arith in H2 by assumption. rewrite !land_mod64 in H3.
  unfold byte in *. Z.div_mod_to_equations. lia.
Qed.

Ltac split_cons H :=
  repeat match type of H with
         | _ :: _ = _ :: _ =>
             let H1 := fresh "Hhd" in
             apply cons_eq_inv in H as [H1 H]
         end.

Ltac pad_clash :=
  match goal with
  | H : pad = sextet _ |- _ => symmetry in H; pad_clash
  | H : sextet ?i = pad |- _ =>
      exfalso; revert H; apply sextet_not_pad;
      first [ apply sextet_first; assumption
            | apply sextet_i1; assumption
            | apply sextet_i2; assumption
            | apply sextet_t1 | apply sextet_t2 | apply sextet_last ]
  end.

Lemma base64_inj (l1 l2 : list Z) :
  Forall byte l1 -> Forall byte l2 -> base64 l1 = base64 l2 -> l1 = l2.
Proof.
  revert l2.
  induction l1 as [| a | a b | a b c rest IH] using list_ind3;
    intros l2 B1 B2 H;
    destruct l2 as [| a' [| b' [| c' rest']]]; cbn [base64] in H;
    try discriminate H; try reflexivity;
    repeat match goal with
           | B : Forall byte (_ :: _) |- _ =>
               apply Forall_cons in B as [? B]
           end;
    split_cons H; try pad_clash.
  - f_equal. apply group1_inj; assumption.
  - destruct (group2_inj a b a' b') as [-> ->]; try assumption. reflexivity.
  - destruct (group3_inj a b c a' b' c') as (-> & -> & ->); try assumption.
    f_equal. f_equal. f_equal. apply IH; assumption.
Qed.

(** X6: base64 is injective on sequences of bytes: two buffers with the
    same text are equal, padding included. *)
Theorem base64_injective (l1 l2 : list Z) :
  Forall byte l1 -> Forall byte l2 ->
  (base64 l1 = base64 l2 <-> l1 = l2).
Proof.
  intros B1 B2. split.
  - apply base64_inj; assumption.
  - intros ->. reflexivity.
Qed.

Lemma base64_injective_witness :
  drop 4 sample_plain = TextEncoder_encode sample_text.
Proof.
  apply base64_injective;
    [apply Forall_byte_check; vm_compute; reflexivity ..
    | vm_compute; reflexivity].
Defined.

Lemma encrypt_injective b1 b2 :
  Forall byte b1 -> Forall byte b2 -> encrypt b1 = encrypt b2 -> b1 = b2.
Proof.
  intros B1 B2 H.
  rewrite <- (encrypt_twice b1 B1), <- (encrypt_twice b2 B2), H.
  reflexivity.
Qed.

(** X7: a token determines its plaintext.  Two resolved inputs that give
    the same token have the same seed and the same UTF-8 payload bytes:
    neither the cipher loop nor base64 merges two buffers. *)
Theorem token_determines_plaintext (f1 f2 : Final) (token : jsstring) :
  encodeFinal f1 = Return token ->
  encodeFinal f2 = Return token ->
  initialBytes (finalTimestamp f1) = initialBytes (finalTimestamp f2) /\
  TextEncoder_encode (dataString f1) = TextEncoder_encode (dataString f2).
Proof.
  rewrite !encodeFinal_eq. intros <-%Return_inj H%Return_inj.
  assert (P1 := plain_bytes f1 _ (combinedData_eq f1)).
  assert (P2 := plain_bytes f2 _ (combinedData_eq f2)).
  apply base64_inj in H; [| apply encrypt_bytes; assumption ..].
  apply encrypt_injective in H; [| assumption ..].
  apply app_inj_1 in H; [| rewrite !initialBytes_length; reflexivity].
  destruct H as [H1 H2]. split; congruence.
Qed.

Lemma token_determines_plaintext_witness :
  initialBytes (finalTimestamp sample_final) = initialBytes (finalTimestamp sample_final) /\
  TextEncoder_encode (dataString sample_final) = TextEncoder_encode (dataString sample_final).
Proof.
  apply (token_determines_plaintext sample_final sample_final
           (base64 (encrypt sample_plain))); vm_compute; reflexivity.
Defined.

(** ** What the payload does with its fields *)

Lemma encodeFinal_ext f1 f2 :
  finalTimestamp f1 = finalTimestamp f2 ->
  dataString f1 = dataString f2 ->
  encodeFinal f1 = encodeFinal f2.
Proof. intros Ht Hd. rewrite !encodeFinal_eq, Ht, Hd. reflexivity. Qed.

Lemma or_opt_falsy a b : truthy a = false -> or_opt a b = b.
Proof. unfold or_opt. intros ->. reflexivity. Qed.

Lemma or_lit_truthy s l : s <> [] -> or_lit (Some s) l = s.
Proof. destruct s; [congruence | reflexivity]. Qed.

Lemma or_lit_falsy a l : truthy a = false -> or_lit a l = l.
Proof. destruct a as [[| c r] |]; try discriminate; reflexivity. Qed.

Lemma or_lit_nonempty a l : l <> [] -> or_lit a l <> [].
Proof. destruct a as [[| c r] |]; cbn [or_lit]; intros H; congruence. Qed.

(** X8: the separator is not escaped.  When the client data names no
    model and no system, a [|] inside the caller's deviceModel cannot be
    told from the separator before os: moving the text after it into os
    gives the same token. *)
Theorem separator_not_escaped (env : Env)
    (deviceIdentifier sn timestamp : option jsstring) (x y z : jsstring) :
  truthy (clientDeviceModel (client env)) = false ->
  truthy (clientOs (client env)) = false ->
  x <> [] -> z <> [] ->
  getRAuthToken env deviceIdentifier sn timestamp
    (Some (x ++ lit "|" ++ y)) (Some z) =
  getRAuthToken env deviceIdentifier sn timestamp
    (Some x) (Some (y ++ lit "|" ++ z)).
Proof.
  intros Hm Ho Hx Hz. unfold getRAuthToken.
  apply encodeFinal_ext; [reflexivity |].
  unfold dataString, resolve.
  cbn [finalDeviceIdentifier finalSn finalTimestamp finalDeviceModel finalOs
       isDevelopment].
  rewrite !(or_opt_falsy _ _ Hm), !(or_opt_falsy _ _ Ho).
  rewrite (or_lit_truthy x), (or_lit_truthy z) by assumption.
  rewrite !or_lit_truthy by (destruct x, y; discriminate).
  rewrite <- !app_assoc. reflexivity.
Qed.

Lemma separator_not_escaped_witness :
  getRAuthToken sample_env None None (Some (lit "5"))
    (Some (lit "tv|5|box")) (Some (lit "linux")) =
  getRAuthToken sample_env None None (Some (lit "5"))
    (Some (lit "tv")) (Some (lit "5|box|linux")).
Proof.
  apply (separator_not_escaped sample_env None None (Some (lit "5"))
           (lit "tv") (lit "5|box") (lit "linux"));
    first [reflexivity | discriminate].
Defined.

Lemma decimal_nonempty z : decimal z <> [].
Proof.
  unfold decimal. destruct (Z.to_int z) as [d | d]; [destruct d | ]; discriminate.
Qed.

Lemma positive_toString_nonempty x : positive_toString x <> [].
Proof.
  unfold positive_toString.
  destruct (x <=? 2 ^ 53); [apply decimal_nonempty |].
  destruct (shortest x) as [s n].
  pose proof (decimal_nonempty s) as Hs.
  destruct (decimal s) as [| d [| d' more]]; [congruence | ..];
    destruct (n <=? 21); discriminate.
Qed.

Lemma Number_toString_nonempty n : Number_toString n <> [].
Proof.
  destruct n; cbn [Number_toString]; try discriminate.
  destruct (z <? 0); [discriminate | apply positive_toString_nonempty].
Qed.

Lemma nonempty_length {A : Type} (l : list A) : l <> [] -> (1 <= length l)%nat.
Proof. destruct l; [congruence | cbn [length]; lia]. Qed.

Lemma fields_nonempty (env : Env)
    (deviceIdentifier sn timestamp deviceModel os : option jsstring) :
  let f := resolve env deviceIdentifier sn timestamp deviceModel os in
  (exists id, id <> [] /\ finalDeviceIdentifier f = lit "web-fingerprint-" ++ id) /\
  finalSn f <> [] /\
  Number_toString (finalTimestamp f) <> [] /\
  finalDeviceModel f <> [] /\
  finalOs f <> [].
Proof.
  intros f. unfold f, resolve.
  cbn [finalDeviceIdentifier finalSn finalTimestamp finalDeviceModel finalOs].
  refine (conj _ (conj _ (conj _ (conj _ _)))).
  - unfold resolveDeviceIdentifier. eexists. split; [| reflexivity].
    destruct (fingerprint (client env)) as [[| c r] |];
      first [discriminate | apply or_lit_nonempty; discriminate].
  - apply or_lit_nonempty. discriminate.
  - apply Number_toString_nonempty.
  - apply or_lit_nonempty. discriminate.
  - apply or_lit_nonempty. discriminate.
Qed.

(** X10: for the model and the system the client data wins over the
    caller: a non-empty value in the client data is used whatever the
    argument is; the argument is used only when the client data has none,
    and the literal only when both are absent or empty.  The serial number
    has no client-data source. *)
Theorem client_data_precedence (env : Env)
    (deviceIdentifier sn timestamp deviceModel os : option jsstring) :
  let f := resolve env deviceIdentifier sn timestamp deviceModel os in
  (forall m, clientDeviceModel (client env) = Some m -> m <> [] ->
     finalDeviceModel f = m) /\
  (forall o, clientOs (client env) = Some o -> o <> [] -> finalOs f = o) /\
  (truthy (clientDeviceModel (client env)) = false ->
     (forall m, deviceModel = Some m -> m <> [] -> finalDeviceModel f = m) /\
     (truthy deviceModel = false ->
        finalDeviceModel f = lit "device_model-65656565")) /\
  (truthy (clientOs (client env)) = false ->
     (forall o, os = Some o -> o <> [] -> finalOs f = o) /\
     (truthy os = false -> finalOs f = lit "windows")) /\
  (forall s, sn = Some s -> s <> [] -> finalSn f = s) /\
  (truthy sn = false -> finalSn f = lit "sn-85845426").
Proof.
  intros f. unfold f, resolve. cbn [finalSn finalDeviceModel finalOs].
  assert (Hwin : forall a b l s, a = Some s -> s <> [] ->
            or_lit (or_opt a b) l = s).
  { intros a b l s -> Hs. destruct s; [congruence | reflexivity]. }
  refine (conj _ (conj _ (conj _ (conj _ (conj _ _))))).
  - intros m Hm Hne. apply Hwin; assumption.
  - intros o Ho Hne. apply Hwin; assumption.
  - intros Hno. rewrite (or_opt_falsy _ _ Hno). split.
    + intros m -> Hm. apply or_lit_truthy, Hm.
    + apply or_lit_falsy.
  - intros Hno. rewrite (or_opt_falsy _ _ Hno). split.
    + intros o -> Ho. apply or_lit_truthy, Ho.
    + apply or_lit_falsy.
  - intros s -> Hs. apply or_lit_truthy, Hs.
  - apply or_lit_falsy.
Qed.

Lemma client_data_precedence_witness :
  finalDeviceModel
    (resolve sample_env None None None (Some (lit "tv")) None) = lit "tv" /\
  finalOs (resolve sample_env None None None None None) = lit "windows".
Proof.
  split.
  - destruct (client_data_precedence sample_env None None None
                (Some (lit "tv")) None) as (_ & _ & H & _).
    destruct (H eq_refl) as [Hm _].
    apply (Hm (lit "tv")); [reflexivity | discriminate].
  - destruct (client_data_precedence sample_env None None None None None)
      as (_ & _ & _ & H & _).
    destruct (H eq_refl) as [_ Ho]. apply Ho. reflexivity.
Defined.

(** ** The size of the payload and of the token *)

Lemma utf8_of_code_point_length cp : (1 <= length (utf8_of_code_point cp))%nat.
Proof.
  unfold utf8_of_code_point.
  repeat match goal with |- context [if ?b then _ else _] => destruct b end;
    cbn [length]; lia.
Qed.

Lemma utf8_of_pair_length c d :
  is_lead c = true -> is_trail d = true ->
  length (utf8_of_code_point (65536 + (c - 55296) * 1024 + (d - 56320))) = 4%nat.
Proof.
  unfold is_lead, is_trail, utf8_of_code_point. intros Hc Hd.
  apply andb_prop in Hc as [Hc _]. apply andb_prop in Hd as [Hd _].
  apply Z.leb_le in Hc, Hd.
  repeat match goal with
         | |- context [?x <? ?y] =>
             destruct (Z.ltb_spec x y); [lia |]
         end.
  reflexivity.
Qed.

(** Every code unit gives at least one byte. *)
Lemma TextEncoder_encode_length_upto n : forall s,
  (length s <= n)%nat -> (length s <= length (TextEncoder_encode s))%nat.
Proof.
  induction n as [| n IH]; intros s Hn.
  - destruct s; [cbn; lia | simpl in Hn; lia].
  - destruct s as [| c rest]; [cbn; lia |].
    simpl in Hn. cbn [TextEncoder_encode].
    assert (Hrest := IH rest ltac:(lia)).
    pose proof (utf8_of_code_point_length replacement) as Hr.
    pose proof (utf8_of_code_point_length c) as Hc.
    destruct (is_lead c) eqn:Hlead.
    + destruct rest as [| d rest'].
      * cbn [length]. lia.
      * destruct (is_trail d) eqn:Htrail.
        -- rewrite length_app, (utf8_of_pair_length c d Hlead Htrail).
           assert (Hrest' := IH rest' ltac:(simpl in Hn; lia)).
           cbn [length]. lia.
        -- rewrite length_app. cbn [length] in *. lia.
    + destruct (is_trail c); rewrite length_app; cbn [length] in *; lia.
Qed.

Lemma TextEncoder_encode_length s :
  (length s <= length (TextEncoder_encode s))%nat.
Proof. apply (TextEncoder_encode_length_upto (length s)). lia. Qed.

Lemma dataString_length env deviceIdentifier sn timestamp deviceModel os :
  (36 <= length (dataString
                   (resolve env deviceIdentifier sn timestamp deviceModel os)))%nat.
Proof.
  destruct (fields_nonempty env deviceIdentifier sn timestamp deviceModel os)
    as ((id & Hid & Hdev) & Hsn & Hts & Hdm & Hos).
  unfold dataString. rewrite Hdev. rewrite !length_app.
  apply nonempty_length in Hid, Hsn, Hts, Hdm, Hos.
  change (length (lit "web-fingerprint-")) with 16%nat.
  change (length (lit "|")) with 1%nat.
  change (length (lit "|Web|3|")) with 7%nat.
  assert (4 <= length (if isDevelopment
                            (resolve env deviceIdentifier sn timestamp deviceModel os)
                       then lit "true" else lit "false"))%nat
    by (destruct (isDevelopment _); cbn; lia).
  lia.
Qed.

(** X9: no field of the payload is ever empty: the identifier has at
    least one character after its 16-character prefix, and the serial
    number, the timestamp text, the model and the system are non-empty
    whatever the arguments and the client data are; so the field string
    has at least 36 characters. *)
Theorem payload_fields_nonempty (env : Env)
    (deviceIdentifier sn timestamp deviceModel os : option jsstring) :
  let f := resolve env deviceIdentifier sn timestamp deviceModel os in
  (exists id, id <> [] /\ finalDeviceIdentifier f = lit "web-fingerprint-" ++ id) /\
  finalSn f <> [] /\
  Number_toString (finalTimestamp f) <> [] /\
  finalDeviceModel f <> [] /\
  finalOs f <> [] /\
  (36 <= length (dataString f))%nat.
Proof.
  intros f.
  destruct (fields_nonempty env deviceIdentifier sn timestamp deviceModel os)
    as (Hid & Hsn & Hts & Hdm & Hos).
  refine (conj Hid (conj Hsn (conj Hts (conj Hdm (conj Hos _))))).
  apply dataString_length.
Qed.

Lemma token_shape (env : Env)
    (deviceIdentifier sn timestamp deviceModel os : option jsstring) :
  exists token,
    getRAuthToken env deviceIdentifier sn timestamp deviceModel os = Return token /\
    Forall (fun c => c ∈ alphabet \/ c = pad) token /\
    exists q, (14 <= q)%nat /\ length token = (4 * q)%nat.
Proof.
  unfold getRAuthToken. rewrite encodeFinal_eq.
  set (f := resolve env deviceIdentifier sn timestamp deviceModel os).
  set (plain := initialBytes (finalTimestamp f) ++ TextEncoder_encode (dataString f)).
  assert (Hb : Forall byte (encrypt plain)).
  { apply encrypt_bytes, (plain_bytes f), combinedData_eq. }
  eexists. split; [reflexivity |]. split; [apply base64_text_safe, Hb |].
  exists ((length (encrypt plain) + 2) / 3)%nat.
  split; [| rewrite base64_length; lia].
  assert (40 <= length (encrypt plain))%nat.
  { rewrite encrypt_length. unfold plain.
    rewrite length_app, initialBytes_length.
    pose proof (TextEncoder_encode_length (dataString f)).
    pose proof (dataString_length env deviceIdentifier sn timestamp deviceModel os).
    fold f in H0. lia. }
  pose proof (ceil_third (length (encrypt plain))). lia.
Qed.

(** X5: every call returns a token that is usable as a header value and
    is truthy: it is not empty, each of its characters is one of the 64
    characters of the base64 alphabet or [=], and its length is a
    multiple of four that is at least 56, the length for the shortest
    possible payload. *)
Theorem token_text_safe (env : Env)
    (deviceIdentifier sn timestamp deviceModel os : option jsstring) :
  exists token,
    getRAuthToken env deviceIdentifier sn timestamp deviceModel os = Return token /\
    token <> [] /\
    Forall (fun c => c ∈ alphabet \/ c = pad) token /\
    (56 <= length token)%nat /\
    (length token mod 4 = 0)%nat.
Proof.
  destruct (token_shape env deviceIdentifier sn timestamp deviceModel os)
    as (token & Htok & Hsafe & q & Hq & Hlen).
  exists token. split; [exact Htok |].
  split; [destruct token; [cbn [length] in Hlen; lia | discriminate] |].
  split; [exact Hsafe |]. split; [lia |].
  rewrite Hlen, Nat.mul_comm. apply Nat.Div0.mod_mul.
Qed.

(** ASCII text is encoded unit for unit. *)
Lemma TextEncoder_encode_ascii s :
  Forall ascii_unit s -> TextEncoder_encode s = s.
Proof.
  induction 1 as [| c s Hc _ IH]; [reflexivity |].
  unfold ascii_unit in Hc. cbn [TextEncoder_encode].
  unfold is_lead, is_trail.
  destruct (Z.leb_spec 55296 c); [lia |]. cbn [andb].
  destruct (Z.leb_spec 56320 c); [lia |]. cbn [andb].
  unfold utf8_of_code_point. destruct (Z.ltb_spec c 128); [| lia].
  rewrite IH. cbn [app]. f_equal.
  change 127 with (Z.ones 7). rewrite Z.land_ones by lia.
  apply Z.mod_small. change (2 ^ 7) with 128. lia.
Qed.

Lemma Forall_ascii_check l :
  forallb (fun c => (0 <=? c) && (c <? 128)) l = true -> Forall ascii_unit l.
Proof.
  induction l as [| c l IH]; cbn [forallb]; intros H; [constructor |].
  apply andb_prop in H as [Hc Hl].
  apply andb_prop in Hc as [H0 H1].
  constructor; [| apply IH, Hl].
  unfold ascii_unit. apply Z.leb_le in H0. apply Z.ltb_lt in H1. lia.
Qed.

Lemma string_of_uint_ascii d : Forall ascii_unit (lit (NilEmpty.string_of_uint d)).
Proof.
  induction d; cbn [NilEmpty.string_of_uint];
    first [ apply Forall_nil; exact I
          | apply Forall_cons; split; [unfold ascii_unit; cbn; lia | assumption] ].
Qed.

Lemma decimal_ascii z : Forall ascii_unit (decimal z).
Proof.
  unfold decimal, NilZero.string_of_int, NilZero.string_of_uint.
  destruct (Z.to_int z) as [d | d].
  - destruct d; try apply string_of_uint_ascii.
    apply Forall_ascii_check. reflexivity.
  - apply Forall_cons; split; [unfold ascii_unit; cbn; lia |].
    destruct d; try apply string_of_uint_ascii.
    apply Forall_ascii_check. reflexivity.
Qed.

Lemma positive_toString_ascii x : Forall ascii_unit (positive_toString x).
Proof.
  assert (Hlit : forall l, forallb (fun c => (0 <=? c) && (c <? 128)) l = true ->
                           Forall ascii_unit l) by apply Forall_ascii_check.
  unfold positive_toString.
  destruct (x <=? 2 ^ 53); [apply decimal_ascii |].
  destruct (shortest x) as [s n].
  pose proof (decimal_ascii s) as Hs.
  pose proof (decimal_ascii (n - 1)) as He.
  destruct (n <=? 21).
  - apply Forall_app. split; [exact Hs |].
    apply Forall_replicate. unfold ascii_unit. lia.
  - destruct (decimal s) as [| d [| d' more]]; [apply Forall_nil; exact I | ..];
      apply Forall_cons in Hs as [Hd Hmore];
      apply Forall_cons; (split; [exact Hd |]).
    + apply Forall_app. split; [apply Hlit; reflexivity | exact He].
    + apply Forall_app. split; [apply Hlit; reflexivity |].
      apply Forall_app. split; [exact Hmore |].
      apply Forall_app. split; [apply Hlit; reflexivity | exact He].
Qed.

Lemma Number_toString_ascii n : Forall ascii_unit (Number_toString n).
Proof.
  destruct n; cbn [Number_toString];
    try (apply Forall_ascii_check; reflexivity).
  destruct (z <? 0); [| apply positive_toString_ascii].
  apply Forall_app. split; [apply Forall_ascii_check; reflexivity |].
  apply positive_toString_ascii.
Qed.

(** X11: when the four text fields hold ASCII only, the payload part of
    the plaintext buffer is the field string itself, one byte per
    character, and the length of the token follows from the number of
    characters. *)
Theorem ascii_payload (f : Final) :
  Forall ascii_unit (finalDeviceIdentifier f) ->
  Forall ascii_unit (finalSn f) ->
  Forall ascii_unit (finalDeviceModel f) ->
  Forall ascii_unit (finalOs f) ->
  combinedData f = Return (initialBytes (finalTimestamp f) ++ dataString f) /\
  exists token,
    encodeFinal f = Return token /\
    length token = ((4 + length (dataString f) + 2) / 3 * 4)%nat.
Proof.
  intros Hid Hsn Hdm Hos.
  assert (Hd : TextEncoder_encode (dataString f) = dataString f).
  { apply TextEncoder_encode_ascii. unfold dataString.
    repeat (apply Forall_app; split); try assumption;
      try (apply Forall_ascii_check; reflexivity).
    - apply Number_toString_ascii.
    - destruct (isDevelopment f); apply Forall_ascii_check; reflexivity. }
  rewrite combinedData_eq, encodeFinal_eq, Hd. split; [reflexivity |].
  eexists. split; [reflexivity |].
  rewrite base64_length, encrypt_length, length_app, initialBytes_length.
  reflexivity.
Qed.

Lemma ascii_payload_witness :
  combinedData sample_final = Return ([0; 0; 19; 19] ++ sample_text).
Proof.
  apply (ascii_payload sample_final);
    apply Forall_ascii_check; vm_compute; reflexivity.
Defined.

(** ** A decimal timestamp survives the round trip *)

Lemma lit_String c s : lit (String c s) = Z.of_N (N_of_ascii c) :: lit s.
Proof. reflexivity. Qed.

Lemma digits_prefix_digit c s :
  48 <= c <= 57 -> digits_prefix (c :: s) = (c - 48) :: digits_prefix s.
Proof.
  intros Hc. cbn [digits_prefix]. unfold digit_value.
  destruct (Z.leb_spec 48 c); [| lia]. destruct (Z.leb_spec c 57); [| lia].
  reflexivity.
Qed.

Ltac eval_char :=
  repeat match goal with
         | |- context [Z.of_N (N_of_ascii ?c)] =>
             let v := eval vm_compute in (Z.of_N (N_of_ascii c)) in
             change (Z.of_N (N_of_ascii c)) with v
         end.

Ltac digit_step :=
  rewrite lit_String; eval_char; cbn [app];
  rewrite digits_prefix_digit by lia; cbn [fold_left].

Lemma fold_digits_acc d : forall acc rest,
  digits_prefix rest = [] ->
  fold_left (fun a x => a * 10 + x)
    (digits_prefix (lit (NilEmpty.string_of_uint d) ++ rest)) (Z.pos acc)
  = Z.pos (Pos.of_uint_acc d acc).
Proof.
  induction d; intros acc rest Hrest;
    cbn [NilEmpty.string_of_uint Pos.of_uint_acc];
    [change (lit "" ++ rest) with rest; rewrite Hrest; reflexivity | ..];
    digit_step; rewrite <- (IHd _ rest Hrest); f_equal; lia.
Qed.

Lemma fold_digits d : forall rest,
  digits_prefix rest = [] ->
  mathInt (digits_prefix (lit (NilEmpty.string_of_uint d) ++ rest))
  = Z.of_N (Pos.of_uint d).
Proof.
  unfold mathInt.
  induction d; intros rest Hrest;
    cbn [NilEmpty.string_of_uint Pos.of_uint];
    [change (lit "" ++ rest) with rest; rewrite Hrest; reflexivity | ..];
    digit_step;
    first [ apply IHd, Hrest
          | cbn [Z.of_N]; rewrite <- (fold_digits_acc _ _ rest Hrest); reflexivity ].
Qed.

Lemma digits_nonempty d rest :
  d <> Decimal.Nil ->
  exists c s, lit (NilEmpty.string_of_uint d) ++ rest = c :: s /\ 48 <= c <= 57.
Proof.
  intros Hd. destruct d; [congruence | ..];
    cbn [NilEmpty.string_of_uint]; rewrite lit_String; eval_char;
    cbn [app]; do 2 eexists; (split; [reflexivity | lia]).
Qed.

(** A text that starts with a digit is read without sign. *)
Lemma parseInt10_digit c s :
  48 <= c <= 57 ->
  parseInt10 (c :: s) = round_double (mathInt (digits_prefix (c :: s))).
Proof.
  intros Hc. unfold parseInt10. cbn [trim_start].
  assert (Hw : is_white_space c = false).
  { unfold is_white_space.
    repeat match goal with
           | |- context [c =? ?k] => destruct (Z.eqb_spec c k); [lia |]
           end.
    destruct (Z.leb_spec 8192 c); [lia |]. reflexivity. }
  rewrite Hw.
  destruct (Z.eqb_spec c 45); [lia |]. destruct (Z.eqb_spec c 43); [lia |].
  rewrite digits_prefix_digit by exact Hc.
  rewrite Z.mul_1_l. reflexivity.
Qed.

Lemma parseInt10_minus c s :
  48 <= c <= 57 ->
  parseInt10 (45 :: c :: s) = round_double (- mathInt (digits_prefix (c :: s))).
Proof.
  intros Hc. unfold parseInt10. cbn [trim_start].
  change (is_white_space 45) with false. cbv iota.
  change (45 =? 45) with true. cbv iota.
  rewrite digits_prefix_digit by exact Hc.
  f_equal; lia.
Qed.

(** Reading the decimal numeral of [z] gives the double nearest to [z]. *)
Lemma parseInt10_decimal z rest :
  digits_prefix rest = [] -> parseInt10 (decimal z ++ rest) = round_double z.
Proof.
  intros Hrest. rewrite <- (DecimalZ.of_to z) at 2.
  unfold decimal, NilZero.string_of_int, NilZero.string_of_uint.
  destruct (Z.to_int z) as [d | d] eqn:Hz.
  - assert (Hd : d <> Decimal.Nil).
    { destruct z; cbn in Hz; try discriminate Hz; injection Hz as <-;
        first [discriminate | apply Unsigned.to_uint_nonnil]. }
    destruct d; [congruence | ..];
      (match goal with
       | |- context [lit (NilEmpty.string_of_uint ?u) ++ rest] =>
           destruct (digits_nonempty u rest ltac:(discriminate))
             as (c & s & Hs & Hc);
           rewrite Hs, (parseInt10_digit c s Hc), <- Hs,
             (fold_digits u rest Hrest); reflexivity
       end).
  - assert (Hd : d <> Decimal.Nil).
    { destruct z; cbn in Hz; try discriminate Hz. injection Hz as <-.
      apply Unsigned.to_uint_nonnil. }
    destruct d; [congruence | ..];
      (rewrite lit_String; change (Z.of_N (N_of_ascii "-")) with 45; cbn [app];
       match goal with
       | |- context [lit (NilEmpty.string_of_uint ?u) ++ rest] =>
           destruct (digits_nonempty u rest ltac:(discriminate))
             as (c & s & Hs & Hc);
           rewrite Hs, (parseInt10_minus c s Hc), <- Hs,
             (fold_digits u rest Hrest); reflexivity
       end).
Qed.

Lemma decimal_neg z : z < 0 -> decimal z = lit "-" ++ decimal (- z).
Proof. destruct z as [| q | q]; [lia | lia | reflexivity]. Qed.

(** Up to 2^53 in magnitude the template prints all the digits. *)
Lemma Number_toString_safe z :
  safe_integer z -> Number_toString (Int z) = decimal z.
Proof.
  unfold safe_integer. intros Hz. cbn [Number_toString]. unfold positive_toString.
  destruct (Z.ltb_spec z 0) as [Hneg | Hpos].
  - destruct (Z.leb_spec (- z) (2 ^ 53)); [| lia].
    symmetry. apply decimal_neg, Hneg.
  - destruct (Z.leb_spec z (2 ^ 53)); [reflexivity | lia].
Qed.

(** X12: a timestamp given as the decimal numeral of an integer [z],
    possibly followed by text that does not start with a digit, resolves
    to the double nearest to [z]; what follows the digits is dropped.
    When [z] is at most 2^53 in magnitude that double is [z] itself and
    the payload carries the numeral alone: [parseInt] and the template
    undo each other.  Above 2^53 neither holds in general, see
    [timestamp_rounded] and [timestamp_exponent]. *)
Theorem timestamp_round_trip (env : Env) (z : Z) (rest : jsstring) :
  digits_prefix rest = [] ->
  resolveTimestamp env (Some (decimal z ++ rest)) = round_double z /\
  (safe_integer z ->
   resolveTimestamp env (Some (decimal z ++ rest)) = Int z /\
   Number_toString (resolveTimestamp env (Some (decimal z ++ rest))) = decimal z).
Proof.
  intros Hrest.
  assert (H : resolveTimestamp env (Some (decimal z ++ rest)) = round_double z).
  { unfold resolveTimestamp.
    destruct (decimal z ++ rest) as [| c r] eqn:Hs.
    - apply app_eq_nil in Hs as [Hs _]. destruct (decimal_nonempty z Hs).
    - rewrite <- Hs. apply parseInt10_decimal, Hrest. }
  split; [exact H |].
  intros Hz. rewrite H, (round_double_safe z Hz).
  split; [reflexivity | apply Number_toString_safe, Hz].
Qed.

Lemma timestamp_round_trip_witness :
  resolveTimestamp sample_env (Some (lit "-1700000000.5s")) = Int (-1700000000) /\
  Number_toString (resolveTimestamp sample_env (Some (lit "-1700000000.5s")))
  = lit "-1700000000".
Proof.
  apply (timestamp_round_trip sample_env (-1700000000) (lit ".5s"));
    [reflexivity | unfold safe_integer; lia].
Defined.

(** Above 2^53 the timestamp is rounded: 2^53 + 1 is read as 2^53. *)
Lemma timestamp_rounded (env : Env) :
  resolveTimestamp env (Some (lit "9007199254740993")) = Int 9007199254740992.
Proof. vm_compute. reflexivity. Qed.

(** From 10^21 the template prints an exponent, and a numeral past the
    largest double is read as [Infinity]. *)
Lemma timestamp_exponent (env : Env) :
  Number_toString (resolveTimestamp env (Some (lit "1000000000000000000000")))
  = lit "1e+21" /\
  Number_toString (resolveTimestamp env (Some (lit "18446744073709551616")))
  = lit "18446744073709552000" /\
  resolveTimestamp env (Some (decimal (10 ^ 309))) = Infinity.
Proof. vm_compute. repeat split. Qed.

(** ** The layout of the plaintext *)

Lemma string_of_uint_digits d :
  Forall digit_unit (lit (NilEmpty.string_of_uint d)).
Proof.
  induction d; cbn [NilEmpty.string_of_uint];
    first [ apply Forall_nil; exact I
          | apply Forall_cons; split; [unfold digit_unit; cbn; lia | assumption] ].
Qed.

Lemma decimal_digits z : 0 <= z -> Forall digit_unit (decimal z).
Proof.
  intros Hz. unfold decimal, NilZero.string_of_int, NilZero.string_of_uint.
  destruct z as [| p | p]; [| | lia]; cbn [Z.to_int].
  - apply Forall_cons; split; [unfold digit_unit; cbn; lia |].
    apply Forall_nil; exact I.
  - destruct (Pos.to_uint p); try apply string_of_uint_digits.
    apply Forall_cons; split; [unfold digit_unit; cbn; lia |].
    apply Forall_nil; exact I.
Qed.

Lemma digits_prefix_all s :
  Forall digit_unit s -> digits_prefix s = map (fun c => c - 48) s.
Proof.
  induction 1 as [| c s Hc _ IH]; [reflexivity |].
  rewrite digits_prefix_digit by exact Hc. cbn [map]. rewrite IH. reflexivity.
Qed.

Lemma nzhead_head d d' : Decimal.nzhead d <> Decimal.D0 d'.
Proof. induction d; cbn [Decimal.nzhead]; first [exact IHd | discriminate]. Qed.

(** The numeral of a positive number does not start with a zero. *)
Lemma to_uint_head p d : Pos.to_uint p <> Decimal.D0 d.
Proof.
  intros H.
  pose proof (DecimalPos.Unsigned.to_of (Pos.to_uint p)) as Hn.
  rewrite DecimalPos.Unsigned.of_to in Hn. cbn [N.to_uint] in Hn.
  rewrite H in Hn. unfold Decimal.unorm in Hn.
  destruct (Decimal.nzhead (Decimal.D0 d)) eqn:Hz;
    try (apply (nzhead_head (Decimal.D0 d) d); congruence).
  apply (Unsigned.to_uint_nonzero p). congruence.
Qed.

Lemma decimal_numeral_pos p : decimal_numeral (Z.pos p) (decimal (Z.pos p)).
Proof.
  unfold decimal_numeral. change (Z.pos p <? 0) with false.
  exists (decimal (Z.pos p)).
  split; [reflexivity |]. split; [apply decimal_nonempty |].
  split; [apply decimal_digits; lia |].
  pose proof (Unsigned.to_uint_nonnil p) as Hnil.
  pose proof (to_uint_head p) as Hhead.
  pose proof (DecimalPos.Unsigned.of_to p) as Hval.
  assert (Hdec : decimal (Z.pos p) = lit (NilEmpty.string_of_uint (Pos.to_uint p))).
  { unfold decimal, NilZero.string_of_int, NilZero.string_of_uint.
    cbn [Z.to_int]. destruct (Pos.to_uint p); [congruence | reflexivity ..]. }
  split.
  - rewrite <- digits_prefix_all by (apply decimal_digits; lia).
    rewrite Hdec, <- (app_nil_r (lit _)), fold_digits by reflexivity.
    rewrite Hval. reflexivity.
  - rewrite Hdec. intros more Hm.
    destruct (Pos.to_uint p) as [| d | d | d | d | d | d | d | d | d | d];
      [discriminate Hm | destruct (Hhead d eq_refl) | ..];
      cbn [NilEmpty.string_of_uint] in Hm; rewrite lit_String in Hm;
      apply (f_equal (hd 0)) in Hm; vm_compute in Hm; discriminate Hm.
Qed.

(** [decimal z] is the decimal numeral of [z]. *)
Lemma decimal_is_numeral z : decimal_numeral z (decimal z).
Proof.
  destruct z as [| p | p].
  - exists (lit "0"). split; [reflexivity |]. split; [discriminate |].
    split; [apply (decimal_digits 0); lia |]. split; [reflexivity |].
    intros more Hm. injection Hm as <-. reflexivity.
  - apply decimal_numeral_pos.
  - destruct (decimal_numeral_pos p) as (ds & Ht & Hne & Hd & Hv & Hz).
    exists ds. change (Z.neg p <? 0) with true.
    split; [| split; [exact Hne | split; [exact Hd | split; [exact Hv | exact Hz]]]].
    rewrite (decimal_neg (Z.neg p)) by lia.
    change (- Z.neg p) with (Z.pos p). rewrite Ht at 1. reflexivity.
Qed.

Lemma decimal_head z :
  exists c s, decimal z = c :: s /\ (c = 45 \/ digit_unit c).
Proof.
  destruct (decimal_is_numeral z) as (ds & Ht & Hne & Hd & _).
  destruct ds as [| c s]; [congruence |].
  apply Forall_cons in Hd as [Hc _].
  destruct (z <? 0); rewrite Ht.
  - exists 45, (c :: s). split; [reflexivity | left; reflexivity].
  - exists c, s. split; [reflexivity | right; exact Hc].
Qed.

(** C5 as stated fails: the timestamp [abc] resolves to NaN, the third
    field of the payload is the text [NaN], and for no integer is the
    payload the one that carries its decimal numeral. *)
Lemma timestamp_field_not_decimal :
  (exists plain,
     combinedData sample_final_unparsable = Return plain /\
     drop 4 plain =
       TextEncoder_encode
         (lit "web-fingerprint-fb9cd3a645fe5jim|sn-85845426|NaN|device_model-65656565|windows|Web|3|false")) /\
  ~ (exists z plain,
       combinedData sample_final_unparsable = Return plain /\
       drop 4 plain =
         TextEncoder_encode
           (join (lit "|")
              [finalDeviceIdentifier sample_final_unparsable;
               finalSn sample_final_unparsable;
               decimal z;
               finalDeviceModel sample_final_unparsable;
               finalOs sample_final_unparsable; lit "Web"; lit "3";
               if isDevelopment sample_final_unparsable
               then lit "true" else lit "false"])).
Proof.
  split.
  - eexists. split; [apply combinedData_eq |].
    rewrite drop_app_length' by (rewrite initialBytes_length; reflexivity).
    reflexivity.
  - intros (z & plain & Hplain & Hdrop).
    rewrite combinedData_eq in Hplain. apply Return_inj in Hplain. subst plain.
    rewrite drop_app_length' in Hdrop by (rewrite initialBytes_length; reflexivity).
    rewrite (TextEncoder_encode_ascii (join _ _)) in Hdrop.
    2:{ cbn [join]. repeat (apply Forall_app; split);
          first [apply decimal_ascii | apply Forall_ascii_check; reflexivity]. }
    destruct (decimal_head z) as (c & s & Hz & Hc).
    cbn [join] in Hdrop. rewrite Hz in Hdrop.
    change (TextEncoder_encode (dataString sample_final_unparsable))
      with (lit "web-fingerprint-fb9cd3a645fe5jim|sn-85845426|" ++ lit "NaN|device_model-65656565|windows|Web|3|false")
      in Hdrop.
    change (finalDeviceIdentifier sample_final_unparsable ++ lit "|"
            ++ finalSn sample_final_unparsable ++ lit "|" ++ (c :: s) ++ ?r)
      with (lit "web-fingerprint-fb9cd3a645fe5jim|sn-85845426|" ++ (c :: s) ++ r)
      in Hdrop.
    apply app_inv_head in Hdrop. apply (f_equal (hd 0)) in Hdrop.
    cbn in Hdrop. unfold digit_unit in Hc. lia.
Qed.

(** C5, as the code has it: for every resolved input the plaintext
    buffer exists, its bytes 0-3 are the four seed bytes and its bytes
    from 4 on are the UTF-8 encoding, and nothing more, of the eight
    fields joined by [|] in the order deviceIdentifier, serialNumber,
    timestamp, deviceModel, os, [Web], [3], [true] or [false].  The
    timestamp field is what the template prints for the Number: the
    decimal numeral when the timestamp is an integer of magnitude up to
    2^53, and the texts [NaN], [Infinity], [-Infinity] for the values
    that [parseInt] gives on a text without digits or past the range of
    the doubles. *)
Theorem plaintext_layout (f : Final) :
  exists plain,
    combinedData f = Return plain /\
    take 4 plain = initialBytes (finalTimestamp f) /\
    length (initialBytes (finalTimestamp f)) = 4%nat /\
    drop 4 plain =
      TextEncoder_encode
        (join (lit "|")
           [finalDeviceIdentifier f; finalSn f;
            Number_toString (finalTimestamp f);
            finalDeviceModel f; finalOs f; lit "Web"; lit "3";
            if isDevelopment f then lit "true" else lit "false"]) /\
    length plain = (4 + length (TextEncoder_encode (dataString f)))%nat /\
    (forall z, finalTimestamp f = Int z -> safe_integer z ->
       decimal_numeral z (Number_toString (finalTimestamp f))) /\
    (finalTimestamp f = NaN -> Number_toString (finalTimestamp f) = lit "NaN") /\
    (finalTimestamp f = Infinity ->
       Number_toString (finalTimestamp f) = lit "Infinity") /\
    (finalTimestamp f = NegInfinity ->
       Number_toString (finalTimestamp f) = lit "-Infinity").
Proof.
  eexists. split; [apply combinedData_eq |].
  pose proof (initialBytes_length (finalTimestamp f)) as Hlen.
  refine (conj _ (conj Hlen (conj _ (conj _ (conj _ (conj _ (conj _ _))))))).
  - apply take_app_length'. symmetry. exact Hlen.
  - rewrite drop_app_length' by (symmetry; exact Hlen). reflexivity.
  - rewrite length_app, Hlen. reflexivity.
  - intros z -> Hz. rewrite (Number_toString_safe z Hz).
    apply decimal_is_numeral.
  - intros ->. reflexivity.
  - intros ->. reflexivity.
  - intros ->. reflexivity.
Qed.

Lemma plaintext_layout_witness :
  exists plain,
    combinedData sample_final = Return plain /\
    take 4 plain = [0; 0; 19; 19] /\
    drop 4 plain = sample_text /\
    decimal_numeral 0 (Number_toString (finalTimestamp sample_final)).
Proof.
  destruct (plaintext_layout sample_final)
    as (plain & H & Hseed & _ & Hdata & _ & Hdec & _).
  exists plain. split; [exact H |]. split; [exact Hseed |].
  split; [exact Hdata |].
  apply (Hdec 0); [reflexivity | unfold safe_integer; lia].
Defined.

(** * The configuration module *)

(** X13: TLS is forced and debug logging is on in every environment:
    [x === 'https' || true] and [x === 'true' || true] are true whatever
    the variables hold, so [VITE_REVERB_SCHEME] and [VITE_DEBUG] have no
    effect on the configuration. *)
Theorem config_scheme_debug_ignored (env : ImportMetaEnv)
    (scheme dbg : option jsstring) :
  forceTLS (reverbConfig env) = true /\
  debug (reverbConfig env) = true /\
  reverbConfig (with_scheme_debug env scheme dbg) = reverbConfig env.
Proof.
  unfold reverbConfig, with_scheme_debug. cbn.
  rewrite !orb_true_r. repeat split.
Qed.

(** On a text of digits the radix prefix is never found: [parseInt(s)]
    is [parseInt(s, 10)]. *)
Lemma parseInt_digits s : Forall digit_unit s -> parseInt s = parseInt10 s.
Proof.
  intros Hs. destruct s as [| c r]; [reflexivity |].
  apply Forall_cons in Hs as [Hc Hr]. unfold digit_unit in Hc.
  unfold parseInt, parseInt10. cbn [trim_start].
  assert (Hw : is_white_space c = false).
  { unfold is_white_space.
    repeat match goal with
           | |- context [c =? ?k] => destruct (Z.eqb_spec c k); [lia |]
           end.
    destruct (Z.leb_spec 8192 c); [lia |]. reflexivity. }
  rewrite Hw.
  destruct (Z.eqb_spec c 45); [lia |]. destruct (Z.eqb_spec c 43); [lia |].
  destruct r as [| x hex]; [reflexivity |].
  apply Forall_cons in Hr as [Hx _]. unfold digit_unit in Hx.
  destruct (Z.eqb_spec x 120); [lia |]. destruct (Z.eqb_spec x 88); [lia |].
  rewrite andb_false_r. reflexivity.
Qed.

(** X14: the port is 443 when [VITE_REVERB_PORT] is absent or empty.
    When the variable is the decimal numeral of a natural number [z] the
    port is the double nearest to [z], which is [z] itself up to 2^53;
    above that the port may differ from the numeral, see
    [config_port_rounded]. *)
Theorem config_port (env : ImportMetaEnv) :
  (truthy (VITE_REVERB_PORT env) = false -> port (reverbConfig env) = Int 443) /\
  (forall z, 0 <= z -> VITE_REVERB_PORT env = Some (decimal z) ->
     port (reverbConfig env) = round_double z /\
     (z <= 2 ^ 53 -> port (reverbConfig env) = Int z)).
Proof.
  unfold reverbConfig. cbn [port]. split.
  - intros H. rewrite (or_lit_falsy _ _ H). reflexivity.
  - intros z Hz ->. rewrite or_lit_truthy by apply decimal_nonempty.
    rewrite parseInt_digits by (apply decimal_digits, Hz).
    assert (H : parseInt10 (decimal z) = round_double z).
    { rewrite <- (app_nil_r (decimal z)). apply parseInt10_decimal. reflexivity. }
    rewrite H. split; [reflexivity |].
    intros Hle. apply round_double_safe. unfold safe_integer. lia.
Qed.

Lemma config_port_witness :
  port (reverbConfig sample_ienv) = Int 443 /\
  port (reverbConfig sample_ienv_port) = Int 8080.
Proof.
  split.
  - apply (proj1 (config_port sample_ienv)). reflexivity.
  - apply (proj2 (config_port sample_ienv_port) 8080); [lia | reflexivity | lia].
Defined.

(** Above 2^53 the port is rounded: 2^53 + 1 gives 2^53. *)
Lemma config_port_rounded (env : ImportMetaEnv) :
  VITE_REVERB_PORT env = Some (lit "9007199254740993") ->
  port (reverbConfig env) = Int 9007199254740992.
Proof. unfold reverbConfig. cbn [port]. intros ->. vm_compute. reflexivity. Qed.

(** * The login hook *)

(** ** The path of the login request *)

Lemma starts_with_spec s : forall p,
  starts_with s p = true <-> exists b, s = p ++ b.
Proof.
  induction s as [| d s IH]; intros [| c p]; cbn [starts_with].
  - split; [intros _; exists []; reflexivity | reflexivity].
  - split; [discriminate | intros [b Hb]; discriminate Hb].
  - split; [intros _; exists (d :: s); reflexivity | reflexivity].
  - rewrite andb_true_iff, Z.eqb_eq, IH. split.
    + intros [-> [b ->]]. exists b. reflexivity.
    + intros [b Hb]. cbn [app] in Hb.
      apply cons_eq_inv in Hb as [-> ->]. split; [reflexivity | eauto].
Qed.

(** [includes] finds exactly the texts that contain the pattern. *)
Lemma includes_spec s p :
  includes s p = true <-> exists a b, s = a ++ p ++ b.
Proof.
  induction s as [| d s IH]; cbn [includes]; rewrite orb_true_iff.
  - rewrite starts_with_spec. split.
    + intros [[b Hb] | H]; [exists [], b; exact Hb | discriminate].
    + intros (a & b & H). left.
      destruct a; [exists b; exact H | discriminate H].
  - rewrite starts_with_spec, IH. split.
    + intros [[b Hb] | (a & b & ->)].
      * exists [], b. exact Hb.
      * exists (d :: a), b. reflexivity.
    + intros ([| c a] & b & H).
      * left. exists b. exact H.
      * right. cbn [app] in H. apply cons_eq_inv in H as [_ ->].
        exists a, b. reflexivity.
Qed.

(** The table of predefined users changes nothing: the path is the one
    that the default test alone gives. *)
Lemma getUserTypePath_default email :
  getUserTypePath email =
    if includes email (lit "admin")
       || bool_decide (email = lit "editor@redline.com")
       || bool_decide (email = lit "support@redline.com")
    then lit "/admin" else lit "".
Proof.
  unfold getUserTypePath, PREDEFINED_USERS. cbn [List.find User.email].
  destruct (decide (lit "super.admin@redline.com" = email)) as [<- | H1];
    [vm_compute; reflexivity | rewrite (bool_decide_eq_false_2 _ H1)].
  destruct (decide (lit "editor@redline.com" = email)) as [<- | H2];
    [vm_compute; reflexivity | rewrite (bool_decide_eq_false_2 _ H2)].
  destruct (decide (lit "user@redline.com" = email)) as [<- | H3];
    [vm_compute; reflexivity | rewrite (bool_decide_eq_false_2 _ H3)].
  destruct (decide (lit "support@redline.com" = email)) as [<- | H4];
    [vm_compute; reflexivity | rewrite (bool_decide_eq_false_2 _ H4)].
  reflexivity.
Qed.

(** X15: [getUserTypePath] returns [/admin] or the empty text, and it
    returns [/admin] exactly when the email contains [admin] or is
    [editor@redline.com] or [support@redline.com]: the lookup in
    [PREDEFINED_USERS] never changes what the default test gives, and an
    email that merely contains [editor] or [support] is not an admin. *)
Theorem user_type_path (email : jsstring) :
  (getUserTypePath email = lit "/admin" \/ getUserTypePath email = lit "") /\
  (getUserTypePath email = lit "/admin" <->
     (exists a b, email = a ++ lit "admin" ++ b)
     \/ email = lit "editor@redline.com"
     \/ email = lit "support@redline.com").
Proof.
  rewrite getUserTypePath_default, <- includes_spec.
  destruct (includes email (lit "admin"));
    destruct (decide (email = lit "editor@redline.com")) as [He | He];
    destruct (decide (email = lit "support@redline.com")) as [Hs | Hs];
    rewrite ?(bool_decide_eq_true_2 _ He), ?(bool_decide_eq_false_2 _ He),
      ?(bool_decide_eq_true_2 _ Hs), ?(bool_decide_eq_false_2 _ Hs);
    cbn [orb];
    (split; [first [left; reflexivity | right; reflexivity] |]);
    (split; [intros Hx; try discriminate Hx; auto | intros Hx]);
    try reflexivity.
  destruct Hx as [Hx | [Hx | Hx]]; [discriminate Hx | contradiction ..].
Qed.

(** ** The token of the hook *)

Lemma default_token env :
  exists c r, getRAuthToken env None None None None None = Return (c :: r).
Proof.
  destruct (token_shape env None None None None None)
    as (token & H & _ & q & Hq & Hlen).
  destruct token as [| c r]; [cbn [length] in Hlen; lia |].
  exists c, r. exact H.
Qed.

Lemma keys_distinct : JWT_TOKEN <> R_AUTH_TOKEN.
Proof. intros H. vm_compute in H. discriminate H. Qed.

Lemma generateRAuthToken_eq env w :
  exists token,
    token <> [] /\
    getRAuthToken env None None None None None = Return token /\
    generateRAuthToken env w =
      ({| localStorage := <[R_AUTH_TOKEN := token]> (localStorage w);
          hook := {| isLoading := isLoading (hook w);
                     error := error (hook w);
                     jwtToken := jwtToken (hook w);
                     rAuthToken := Some token;
                     user := user (hook w) |} |},
       Some token).
Proof.
  destruct (default_token env) as (c & r & H).
  exists (c :: r). split; [discriminate |]. split; [exact H |].
  unfold generateRAuthToken. rewrite H. reflexivity.
Qed.

(** X16: [generateRAuthToken] never gives [null] (as long as the client
    data can be read): it returns the non-empty token of [getRAuthToken()],
    stores it under [r_auth_token] and in the state, and
    [loadStoredTokens] right after it reads that token back, next to the
    JWT that was stored before. *)
Theorem generate_token_stored (env : Env) (w : World) :
  exists token,
    token <> [] /\
    getRAuthToken env None None None None None = Return token /\
    snd (generateRAuthToken env w) = Some token /\
    localStorage (fst (generateRAuthToken env w)) =
      <[R_AUTH_TOKEN := token]> (localStorage w) /\
    rAuthToken (hook (fst (generateRAuthToken env w))) = Some token /\
    snd (loadStoredTokens (fst (generateRAuthToken env w))) =
      (localStorage w !! JWT_TOKEN, Some token).
Proof.
  destruct (generateRAuthToken_eq env w) as (token & Hne & Htok & ->).
  exists token. cbn [fst snd localStorage hook rAuthToken].
  refine (conj Hne (conj Htok (conj eq_refl (conj eq_refl (conj eq_refl _))))).
  unfold loadStoredTokens. cbn [fst snd localStorage].
  rewrite lookup_insert_eq, lookup_insert_ne by (apply not_eq_sym, keys_distinct).
  reflexivity.
Qed.

(** X17: [logout] removes both tokens from [localStorage] and from the
    state and touches no other key; [loadStoredTokens] after it finds
    nothing and leaves both tokens of the state empty. *)
Theorem logout_clears (w : World) :
  localStorage (logout w) !! JWT_TOKEN = None /\
  localStorage (logout w) !! R_AUTH_TOKEN = None /\
  (forall k, k <> JWT_TOKEN -> k <> R_AUTH_TOKEN ->
     localStorage (logout w) !! k = localStorage w !! k) /\
  snd (loadStoredTokens (logout w)) = (None, None) /\
  jwtToken (hook (fst (loadStoredTokens (logout w)))) = None /\
  rAuthToken (hook (fst (loadStoredTokens (logout w)))) = None.
Proof.
  assert (Hj : localStorage (logout w) !! JWT_TOKEN = None).
  { unfold logout. cbn [localStorage].
    rewrite lookup_delete_ne by (apply not_eq_sym, keys_distinct).
    apply lookup_delete_eq. }
  assert (Hr : localStorage (logout w) !! R_AUTH_TOKEN = None).
  { unfold logout. cbn [localStorage]. apply lookup_delete_eq. }
  refine (conj Hj (conj Hr (conj _ _))).
  - intros k Hk1 Hk2. unfold logout. cbn [localStorage].
    rewrite !lookup_delete_ne by (apply not_eq_sym; assumption). reflexivity.
  - unfold loadStoredTokens. cbn [fst snd hook jwtToken rAuthToken].
    rewrite Hj, Hr. repeat split.
Qed.

Lemma logout_clears_witness :
  localStorage (logout sample_world) !! JWT_TOKEN = None /\
  localStorage (logout sample_world) !! lit "theme" = Some (lit "dark").
Proof.
  destruct (logout_clears sample_world) as (Hj & _ & Hk & _).
  split; [exact Hj |].
  rewrite (Hk (lit "theme")); [reflexivity | discriminate ..].
Defined.

(** ** [login] *)

(** [login] once the token of the hook is known. *)
Lemma login_eq env ienv fetch email password w :
  exists token,
    token <> [] /\
    getRAuthToken env None None None None None = Return token /\
    snd (generateRAuthToken env w) = Some token /\
    login env ienv fetch email password w =
      match loginOutcome (fetch (loginRequest ienv (Some token) email password)) with
      | inr (jwt, u) =>
          ({| localStorage :=
                <[JWT_TOKEN := jwt]> (<[R_AUTH_TOKEN := token]> (localStorage w));
              hook := {| isLoading := false; error := None;
                         jwtToken := Some jwt; rAuthToken := Some token;
                         user := u |} |}, true)
      | inl err =>
          ({| localStorage := <[R_AUTH_TOKEN := token]> (localStorage w);
              hook := {| isLoading := false;
                         error := Some (caught_message err);
                         jwtToken := jwtToken (hook w);
                         rAuthToken := Some token;
                         user := user (hook w) |} |}, false)
      end.
Proof.
  destruct (generateRAuthToken_eq env w) as (token & Hne & Htok & Hgen).
  exists token. split; [exact Hne |]. split; [exact Htok |].
  split; [rewrite Hgen; reflexivity |].
  unfold login.
  match goal with
  | |- context [generateRAuthToken env ?w0] =>
      destruct (generateRAuthToken_eq env w0) as (token' & _ & Htok' & ->)
  end.
  assert (token' = token) by congruence. subst token'.
  destruct (loginOutcome _) as [err | [jwt u]]; [destruct err |]; reflexivity.
Qed.

Lemma loginOutcome_success outcome jwt u :
  loginOutcome outcome = inr (jwt, u) <->
  exists data,
    outcome = FetchResponse true (JsonValue data) /\
    access_token data = Some jwt /\ jwt <> [] /\ u = data_user data.
Proof.
  split.
  - destruct outcome as [e | ok [e | m | data]]; cbn [loginOutcome];
      try discriminate.
    destruct ok; cbn [negb]; [| discriminate].
    destruct (access_token data) as [[| c r] |] eqn:Ht; try discriminate.
    intros [= <- <-]. exists data. repeat split; [exact Ht | discriminate].
  - intros (data & -> & Ht & Hne & ->). cbn [loginOutcome negb]. rewrite Ht.
    destruct jwt; [congruence | reflexivity].
Qed.

(** X18: [login] returns [true] exactly when the server answers with an
    [ok] response whose JSON body carries a non-empty [access_token];
    then that token is stored under [scramble_jwt_token] and in the
    state together with the user, no error is left, and
    [loadStoredTokens] reads back the JWT and the R-Auth token. *)
Theorem login_success (env : Env) (ienv : ImportMetaEnv)
    (fetch : Request -> FetchOutcome) (email password : jsstring) (w : World) :
  let rAuth := snd (generateRAuthToken env w) in
  let request := loginRequest ienv rAuth email password in
  let after := login env ienv fetch email password w in
  (snd after = true <->
     exists data, fetch request = FetchResponse true (JsonValue data) /\
                  truthy (access_token data) = true) /\
  (forall data jwt,
     fetch request = FetchResponse true (JsonValue data) ->
     access_token data = Some jwt -> jwt <> [] ->
     snd after = true /\
     localStorage (fst after) !! JWT_TOKEN = Some jwt /\
     jwtToken (hook (fst after)) = Some jwt /\
     user (hook (fst after)) = data_user data /\
     error (hook (fst after)) = None /\
     snd (loadStoredTokens (fst after)) = (Some jwt, rAuth)).
Proof.
  intros rAuth request after. unfold after, request, rAuth.
  destruct (login_eq env ienv fetch email password w)
    as (token & Hne & _ & -> & ->).
  set (outcome := fetch (loginRequest ienv (Some token) email password)).
  split.
  - destruct (loginOutcome outcome) as [err | [jwt u]] eqn:Ho; cbn [snd].
    + split; [discriminate |]. intros (data & Hf & Ht).
      destruct (access_token data) as [[| c r] |] eqn:Ha; try discriminate Ht.
      assert (loginOutcome outcome = inr (c :: r, data_user data)).
      { apply loginOutcome_success. exists data.
        repeat split; [exact Hf | exact Ha | discriminate]. }
      congruence.
    + split; [intros _ | reflexivity].
      apply loginOutcome_success in Ho as (data & Hf & Ha & Hj & _).
      exists data. split; [exact Hf |]. rewrite Ha.
      destruct jwt; [congruence | reflexivity].
  - intros data jwt Hf Ha Hj.
    assert (Ho : loginOutcome outcome = inr (jwt, data_user data)).
    { apply loginOutcome_success. exists data. repeat split; assumption. }
    rewrite Ho. cbn [fst snd localStorage hook jwtToken user error].
    rewrite lookup_insert_eq.
    refine (conj eq_refl (conj eq_refl (conj eq_refl (conj eq_refl (conj eq_refl _))))).
    unfold loadStoredTokens. cbn [snd localStorage].
    rewrite lookup_insert_eq, lookup_insert_ne by apply keys_distinct.
    rewrite lookup_insert_eq. reflexivity.
Qed.

Lemma login_success_witness :
  snd (login sample_env sample_ienv sample_fetch_ok
         (lit "user@redline.com") (lit "pass@123") sample_world) = true /\
  localStorage
    (fst (login sample_env sample_ienv sample_fetch_ok
            (lit "user@redline.com") (lit "pass@123") sample_world))
    !! JWT_TOKEN = Some (lit "new-jwt").
Proof.
  destruct (login_success sample_env sample_ienv sample_fetch_ok
              (lit "user@redline.com") (lit "pass@123") sample_world)
    as [_ H].
  destruct (H {| message := None; access_token := Some (lit "new-jwt");
                 data_user := None |} (lit "new-jwt"))
    as (H1 & H2 & _);
    [reflexivity | reflexivity | discriminate |].
  split; [exact H1 | exact H2].
Defined.

(** X19: whatever the server does, [login] ends with [isLoading] false
    and with the fresh R-Auth token in [localStorage]; when it returns
    [false] the stored JWT and the JWT of the state are what they were
    before, and an error message is set: the message of the response (or
    [Login failed]) for a refusal, [No access token received] for an
    [ok] response without token, the message of the exception
    otherwise. *)
Theorem login_failure (env : Env) (ienv : ImportMetaEnv)
    (fetch : Request -> FetchOutcome) (email password : jsstring) (w : World) :
  let rAuth := snd (generateRAuthToken env w) in
  let request := loginRequest ienv rAuth email password in
  let after := login env ienv fetch email password w in
  isLoading (hook (fst after)) = false /\
  rAuth <> None /\
  localStorage (fst after) !! R_AUTH_TOKEN = rAuth /\
  (snd after = false ->
     localStorage (fst after) !! JWT_TOKEN = localStorage w !! JWT_TOKEN /\
     jwtToken (hook (fst after)) = jwtToken (hook w) /\
     exists err,
       loginOutcome (fetch request) = inl err /\
       error (hook (fst after)) = Some (caught_message err)) /\
  (forall data,
     fetch request = FetchResponse false (JsonValue data) ->
     snd after = false /\
     error (hook (fst after)) = Some (or_lit (message data) (lit "Login failed"))) /\
  (forall data,
     fetch request = FetchResponse true (JsonValue data) ->
     truthy (access_token data) = false ->
     snd after = false /\
     error (hook (fst after)) = Some (lit "No access token received")).
Proof.
  intros rAuth request after. unfold after, request, rAuth.
  destruct (login_eq env ienv fetch email password w)
    as (token & Hne & _ & -> & ->).
  set (outcome := fetch (loginRequest ienv (Some token) email password)).
  refine (conj _ (conj _ (conj _ (conj _ (conj _ _))))).
  - destruct (loginOutcome outcome) as [err | [jwt u]]; reflexivity.
  - discriminate.
  - destruct (loginOutcome outcome) as [err | [jwt u]];
      cbn [fst localStorage].
    + apply lookup_insert_eq.
    + rewrite lookup_insert_ne by apply keys_distinct. apply lookup_insert_eq.
  - destruct (loginOutcome outcome) as [err | [jwt u]]; cbn [fst snd];
      [intros _ | discriminate].
    cbn [localStorage hook jwtToken error].
    rewrite lookup_insert_ne by (apply not_eq_sym, keys_distinct).
    split; [reflexivity |]. split; [reflexivity |].
    exists err. split; reflexivity.
  - intros data Hf. rewrite Hf. cbn [loginOutcome negb]. split; reflexivity.
  - intros data Hf Ht. rewrite Hf. cbn [loginOutcome negb].
    destruct (access_token data) as [[| c r] |]; try discriminate Ht;
      split; reflexivity.
Qed.

Lemma login_failure_witness :
  snd (login sample_env sample_ienv sample_fetch_refused
         (lit "user@redline.com") (lit "wrong") sample_world) = false /\
  error (hook (fst (login sample_env sample_ienv sample_fetch_refused
                      (lit "user@redline.com") (lit "wrong") sample_world)))
    = Some (lit "Invalid credentials") /\
  localStorage
    (fst (login sample_env sample_ienv sample_fetch_refused
            (lit "user@redline.com") (lit "wrong") sample_world))
    !! JWT_TOKEN = Some (lit "old-jwt").
Proof.
  destruct (login_failure sample_env sample_ienv sample_fetch_refused
              (lit "user@redline.com") (lit "wrong") sample_world)
    as (_ & _ & _ & Hkeep & Hrefused & _).
  destruct (Hrefused {| message := Some (lit "Invalid credentials");
                        access_token := None; data_user := None |} eq_refl)
    as [Hfalse Herr].
  split; [exact Hfalse |]. split; [exact Herr |].
  destruct (Hkeep Hfalse) as (Hjwt & _). rewrite Hjwt. reflexivity.
Defined.

(** X20: the request of [login].  It goes to [/api/admin/login] when the
    email contains [admin] or is the editor or support address, and to
    [/api/login] otherwise, under [API_BASE_URL]; its headers are
    [Content-Type], [Accept] and an [R-Auth] header that is always
    present, is made of base64 characters and is the token that [login]
    leaves in [localStorage]; and [login] consults the server for this
    request only. *)
Theorem login_request (env : Env) (ienv : ImportMetaEnv)
    (email password : jsstring) (w : World) :
  let rAuth := snd (generateRAuthToken env w) in
  let request := loginRequest ienv rAuth email password in
  exists token,
    rAuth = Some token /\
    Forall (fun c => c ∈ alphabet \/ c = pad) token /\
    url request =
      API_BASE_URL ienv ++
        (if includes email (lit "admin")
            || bool_decide (email = lit "editor@redline.com")
            || bool_decide (email = lit "support@redline.com")
         then lit "/api/admin/login" else lit "/api/login") /\
    method request = lit "POST" /\
    body request = (email, password) /\
    headers request !! lit "R-Auth" = Some token /\
    headers request !! lit "Accept" = Some (lit "application/json") /\
    headers request !! lit "Content-Type" = Some (lit "application/json") /\
    (forall k, k <> lit "R-Auth" -> k <> lit "Accept" ->
               k <> lit "Content-Type" -> headers request !! k = None) /\
    (forall fetch,
       localStorage (fst (login env ienv fetch email password w))
         !! R_AUTH_TOKEN = Some token) /\
    (forall fetch1 fetch2,
       fetch1 request = fetch2 request ->
       login env ienv fetch1 email password w =
       login env ienv fetch2 email password w).
Proof.
  intros rAuth request. unfold request, rAuth.
  destruct (generateRAuthToken_eq env w) as (token & Hne & Htok & Hgen).
  rewrite Hgen. cbn [snd]. exists token.
  assert (Hsafe : Forall (fun c => c ∈ alphabet \/ c = pad) token).
  { destruct (token_shape env None None None None None) as (t & Ht & Hs & _).
    assert (t = token) by congruence. subst t. exact Hs. }
  assert (Hlogin : forall fetch,
            login env ienv fetch email password w =
            match loginOutcome (fetch (loginRequest ienv (Some token) email password)) with
            | inr (jwt, u) =>
                ({| localStorage :=
                      <[JWT_TOKEN := jwt]> (<[R_AUTH_TOKEN := token]> (localStorage w));
                    hook := {| isLoading := false; error := None;
                               jwtToken := Some jwt; rAuthToken := Some token;
                               user := u |} |}, true)
            | inl err =>
                ({| localStorage := <[R_AUTH_TOKEN := token]> (localStorage w);
                    hook := {| isLoading := false;
                               error := Some (caught_message err);
                               jwtToken := jwtToken (hook w);
                               rAuthToken := Some token;
                               user := user (hook w) |} |}, false)
            end).
  { intros fetch.
    destruct (login_eq env ienv fetch email password w)
      as (t & _ & Ht & _ & ->).
    assert (t = token) by congruence. subst t. reflexivity. }
  refine (conj eq_refl (conj Hsafe (conj _ (conj eq_refl (conj eq_refl _))))).
  { unfold loginRequest. cbn [url]. rewrite getUserTypePath_default.
    destruct (_ || _ || _); reflexivity. }
  assert (Hh : headers (loginRequest ienv (Some token) email password) =
               <[lit "R-Auth" := token]>
                 (<[lit "Accept" := lit "application/json"]>
                    (<[lit "Content-Type" := lit "application/json"]> ∅))).
  { unfold loginRequest. cbn [headers].
    destruct token; [congruence | reflexivity]. }
  rewrite Hh.
  refine (conj _ (conj _ (conj _ (conj _ (conj _ _))))).
  - apply lookup_insert_eq.
  - rewrite lookup_insert_ne by discriminate. apply lookup_insert_eq.
  - rewrite !lookup_insert_ne by discriminate. apply lookup_insert_eq.
  - intros k H1 H2 H3.
    rewrite !lookup_insert_ne by (apply not_eq_sym; assumption).
    apply lookup_empty.
  - intros fetch. rewrite Hlogin.
    destruct (loginOutcome _) as [err | [jwt u]]; cbn [fst localStorage].
    + apply lookup_insert_eq.
    + rewrite lookup_insert_ne by apply keys_distinct. apply lookup_insert_eq.
  - intros fetch1 fetch2 Hf. rewrite !Hlogin, Hf. reflexivity.
Qed.

Lemma login_request_witness :
  url (loginRequest sample_ienv (snd (generateRAuthToken sample_env sample_world))
         (lit "super.admin@redline.com") (lit "pass@123"))
    = lit "https://api.redstrim.com/api/admin/login" /\
  login sample_env sample_ienv sample_fetch_ok
    (lit "super.admin@redline.com") (lit "pass@123") sample_world =
  login sample_env sample_ienv (fun _ => sample_fetch_ok (loginRequest sample_ienv None [] []))
    (lit "super.admin@redline.com") (lit "pass@123") sample_world.
Proof.
  destruct (login_request sample_env sample_ienv
              (lit "super.admin@redline.com") (lit "pass@123") sample_world)
    as (token & _ & _ & Hurl & _ & _ & _ & _ & _ & _ & _ & Hsame).
  split.
  - rewrite Hurl. vm_compute. reflexivity.
  - apply Hsame. reflexivity.
Defined.

(** ** The token asked from the server *)

(** X21: the hook that asks the server returns a token exactly when the
    JSON body of the answer carries a non-empty [token], whatever the
    status of the response is (the [ok] flag is never read); then the
    token is stored under [r_auth_token] and in the state.  In every
    other case (failed request, unreadable body, no token) it returns
    [null] and changes nothing. *)
Theorem remote_token (ienv : ImportMetaEnv)
    (fetch : jsstring -> RemoteLogin.RAuthFetch) (w : World) :
  let after := RemoteLogin.generateRAuthToken ienv fetch w in
  (forall token,
     snd after = Some token <->
     token <> [] /\
     exists ok,
       fetch (RemoteLogin.encodeUrl ienv) =
         RemoteLogin.RAuthFetchResponse ok
           (RemoteLogin.RAuthJsonValue (Some token))) /\
  (forall token,
     snd after = Some token ->
     localStorage (fst after) = <[R_AUTH_TOKEN := token]> (localStorage w) /\
     rAuthToken (hook (fst after)) = Some token /\
     snd (loadStoredTokens (fst after)) =
       (localStorage w !! JWT_TOKEN, Some token)) /\
  (snd after = None -> fst after = w).
Proof.
  intros after. unfold after, RemoteLogin.generateRAuthToken.
  destruct (fetch (RemoteLogin.encodeUrl ienv))
    as [e | ok [e | m | [[| c r] |]]]; cbn [fst snd].
  all: refine (conj _ (conj _ _)); try reflexivity; try discriminate.
  all: try (intros token; split;
            [discriminate
            | intros (Hne & ok' & H);
              first [ discriminate H
                    | injection H as _ Ht; destruct Hne; symmetry; exact Ht ]]).
  - intros token. split.
    + intros [= <-]. split; [discriminate |]. exists ok. reflexivity.
    + intros (_ & ok' & H). injection H as _ Ht. rewrite Ht. reflexivity.
  - intros token [= <-]. cbn [localStorage hook rAuthToken].
    refine (conj eq_refl (conj eq_refl _)).
    unfold loadStoredTokens. cbn [snd localStorage].
    rewrite lookup_insert_eq,
      lookup_insert_ne by (apply not_eq_sym, keys_distinct).
    reflexivity.
Qed.

Lemma remote_token_witness :
  snd (RemoteLogin.generateRAuthToken sample_ienv sample_fetch_rauth sample_world)
    = Some (lit "dG9rZW4=") /\
  localStorage
    (fst (RemoteLogin.generateRAuthToken sample_ienv sample_fetch_rauth sample_world))
    !! R_AUTH_TOKEN = Some (lit "dG9rZW4=").
Proof.
  destruct (remote_token sample_ienv sample_fetch_rauth sample_world)
    as (Hiff & Hstore & _).
  assert (H : snd (RemoteLogin.generateRAuthToken sample_ienv sample_fetch_rauth
                     sample_world) = Some (lit "dG9rZW4=")).
  { apply Hiff. split; [discriminate |]. exists false. reflexivity. }
  split; [exact H |].
  destruct (Hstore _ H) as (-> & _). apply lookup_insert_eq.
Defined.
